(** * A shallow embedding of the Polly walk-through (worker.cpp, worker2.cpp)

    The two source files drive a polyhedral pipeline: SCoP detection,
    model construction, dependence analysis, schedule optimisation (tiling
    guarded by a legality check) and code generation.  The isl library they
    call is not part of the two files: the functions the code calls are
    parameters of the development, and where a property depends on what
    they compute they are modelled from the design document and marked as
    such. *)

From Stdlib Require Import ZArith List Bool Lia String.
From stdpp Require Import gmap strings.
Import ListNotations.

Local Open Scope Z_scope.

(** ** isl objects *)
Module Isl.

(** Values of the symbolic parameters ([N], [M], ...) of a region. *)
Definition valuation := string -> Z.

(** An affine expression over the coordinates of an iteration vector and
    the symbolic parameters. *)
Record isl_aff := mk_aff {
  aff_const : Z;
  aff_coeffs : list Z;
  aff_params : list (string * Z)
}.

Fixpoint dot (cs v : list Z) : Z :=
  match cs, v with
  | c :: cs', x :: v' => c * x + dot cs' v'
  | _, _ => 0
  end.

Definition params_eval (env : valuation) (ps : list (string * Z)) : Z :=
  fold_right (fun pc acc => snd pc * env (fst pc) + acc) 0 ps.

Definition aff_eval (env : valuation) (v : list Z) (a : isl_aff) : Z :=
  aff_const a + dot (aff_coeffs a) v + params_eval env (aff_params a).

Definition aff_cst (c : Z) : isl_aff := mk_aff c [] [].
Definition aff_param (p : string) : isl_aff := mk_aff 0 [] [(p, 1)].
(** The [k]-th coordinate of the iteration vector. *)
Definition aff_var (k : nat) : isl_aff := mk_aff 0 (repeat 0 k ++ [1]) [].

(** Modelled from the spec: an iteration domain, a conjunction of affine
    inequalities.  One pair [(lo, hi)] per dimension stands for
    [lo <= x_k < hi], the bounds being affine in the outer coordinates and
    the parameters: the shape of every domain string in the source
    ([{ [i,j] : 0 <= i < N and 0 <= j < M }]). *)
Record isl_set := mk_set { set_bounds : list (isl_aff * isl_aff) }.

Definition isl_set_dim (s : isl_set) : nat := length (set_bounds s).

Definition Zrange (lo hi : Z) : list Z :=
  map (fun k => lo + Z.of_nat k) (seq 0 (Z.to_nat (hi - lo))).

(** The integer points of a domain that extend [prefix], outermost
    dimension first. *)
Fixpoint points_from (env : valuation) (bs : list (isl_aff * isl_aff))
    (prefix : list Z) : list (list Z) :=
  match bs with
  | [] => [prefix]
  | b :: bs' =>
      flat_map (fun x => points_from env bs' (prefix ++ [x]))
               (Zrange (aff_eval env prefix (fst b)) (aff_eval env prefix (snd b)))
  end.

Definition isl_set_points (env : valuation) (s : isl_set) : list (list Z) :=
  points_from env (set_bounds s) [].

(** An access relation [{ [i,j] -> A[f(i,j), g(i,j)] }]. *)
Record isl_map := mk_map {
  map_in_dim : nat;
  map_array : string;
  map_index : list isl_aff
}.

(** An array element: array name and index vector. *)
Definition element := (string * list Z)%type.

(** The element an access relation maps an iteration vector to; vectors
    of another dimensionality are outside the relation's source space. *)
Definition isl_map_apply (env : valuation) (m : isl_map) (v : list Z)
    : option element :=
  if Nat.eqb (length v) (map_in_dim m)
  then Some (map_array m, map (aff_eval env v) (map_index m))
  else None.

(** An identifier [isl_id_alloc(ctx, name, user)]. *)
Record isl_id := isl_id_alloc { id_name : string; id_user : nat }.

(** A statement instance: position of the statement in the model and
    iteration vector. *)
Definition instance := (nat * list Z)%type.

(** A relation between statement instances at a fixed valuation of the
    parameters, listed edge by edge. *)
Definition isl_union_map := list (instance * instance).

Definition isl_union_map_empty : isl_union_map := [].
Definition isl_union_map_union (a b : isl_union_map) : isl_union_map := a ++ b.

(** *** Lexicographic order on timestamp vectors *)

Fixpoint lex_compare (a b : list Z) : comparison :=
  match a, b with
  | [], [] => Eq
  | [], _ :: _ => Lt
  | _ :: _, [] => Gt
  | x :: a', y :: b' =>
      match x ?= y with
      | Eq => lex_compare a' b'
      | c => c
      end
  end.

Definition lex_ltb (a b : list Z) : bool :=
  match lex_compare a b with Lt => true | _ => false end.

Definition lex_leb (a b : list Z) : bool :=
  match lex_compare a b with Gt => false | _ => true end.

(** *** Schedules *)

(** One coordinate of the timestamp vector. *)
Inductive sched_dim :=
| SIter (k : nat)                    (* the k-th iteration coordinate *)
| SSeq                               (* the statement's sequencing index *)
| SFloor (d : sched_dim) (T : Z)     (* floor(d / T) *)
| SMod (d : sched_dim) (T : Z).      (* d mod T *)

(** A band groups consecutive schedule dimensions; a schedule is the chain
    of its bands from the root down. *)
Definition band := list sched_dim.
Definition isl_schedule := list band.

Fixpoint dim_eval (i : instance) (d : sched_dim) : Z :=
  match d with
  | SIter k => nth k (snd i) 0
  | SSeq => Z.of_nat (fst i)
  | SFloor d' T => dim_eval i d' / T
  | SMod d' T => dim_eval i d' mod T
  end.

Definition band_eval (i : instance) (b : band) : list Z := map (dim_eval i) b.

(** The timestamp vector a schedule assigns to a statement instance. *)
Definition timestamp (sch : isl_schedule) (i : instance) : list Z :=
  flat_map (band_eval i) sch.

(** Modelled from the spec: tiling of a band (isl's band-tile operation is
    not in the source files).  Each coordinate [t] of the band becomes the
    pair [(floor(t/T_i), t mod T_i)]: an outer band of tile coordinates
    followed, one level deeper, by an inner band of point coordinates.
    Sizes pair up with the band's dimensions by position. *)
Fixpoint tile_outer (b : band) (T : list Z) : band :=
  match b, T with
  | d :: b', t :: T' => SFloor d t :: tile_outer b' T'
  | _, _ => []
  end.

Fixpoint tile_inner (b : band) (T : list Z) : band :=
  match b, T with
  | d :: b', t :: T' => SMod d t :: tile_inner b' T'
  | _, _ => []
  end.

Fixpoint band_tile_at (n : nat) (T : list Z) (sch : isl_schedule)
    : isl_schedule :=
  match sch with
  | [] => []
  | b :: rest =>
      match n with
      | O => tile_outer b T :: tile_inner b T :: rest
      | S n' => b :: band_tile_at n' T rest
      end
  end.

(** Modelled from the spec: [isl_schedule_node_band_tile] as the source
    calls it, on a schedule and a list of sizes (the function is not in the
    source files): the outermost band of the schedule is tiled. *)
Definition tile_root_band (sch : isl_schedule) (T : list Z) : isl_schedule :=
  band_tile_at 0 T sch.

End Isl.

(** ** The polyhedral model and the analyses over it *)
Module Polly.
Import Isl.

(** [ScopArrayInfo::MK_READ], [ScopArrayInfo::MK_WRITE]. *)
Inductive MemoryKind := MK_READ | MK_WRITE.

Definition kind_eqb (a b : MemoryKind) : bool :=
  match a, b with
  | MK_READ, MK_READ | MK_WRITE, MK_WRITE => true
  | _, _ => false
  end.

(** A statement of the model: identifier, iteration domain and the ordered
    list of its accesses. *)
Record ScopStmt := mk_stmt {
  stmt_id : isl_id;
  stmt_domain : isl_set;
  stmt_accesses : list (MemoryKind * isl_map)
}.

(** All statement instances of a model whose first statement sits at
    position [k]. *)
Fixpoint instances_from (env : valuation) (k : nat) (stmts : list ScopStmt)
    : list instance :=
  match stmts with
  | [] => []
  | st :: rest =>
      map (pair k) (isl_set_points env (stmt_domain st))
        ++ instances_from env (S k) rest
  end.

Definition instances (env : valuation) (stmts : list ScopStmt) : list instance :=
  instances_from env 0 stmts.

(** The elements a statement instance touches through its accesses of
    kind [k]. *)
Definition access_elements (env : valuation) (k : MemoryKind) (v : list Z)
    (a : MemoryKind * isl_map) : list element :=
  if kind_eqb (fst a) k
  then match isl_map_apply env (snd a) v with
       | Some e => [e]
       | None => []
       end
  else [].

Definition accessed (env : valuation) (stmts : list ScopStmt) (k : MemoryKind)
    (i : instance) : list element :=
  match nth_error stmts (fst i) with
  | Some st => flat_map (access_elements env k (snd i)) (stmt_accesses st)
  | None => []
  end.

Definition touches (env : valuation) (stmts : list ScopStmt) (k : MemoryKind)
    (i : instance) (e : element) : bool :=
  existsb (fun e' => bool_decide (e' = e)) (accessed env stmts k i).

(** The deepest loop nest around a statement of the model. *)
Definition model_depth (stmts : list ScopStmt) : nat :=
  fold_right (fun st d => Nat.max (isl_set_dim (stmt_domain st)) d) 0%nat stmts.

(** Modelled from the spec: the initial schedule ([buildInitialSchedule]
    is not in the source files).  Identity: a statement's timestamp is its
    own iteration vector, padded to the depth of the model, followed by the
    statement's sequencing index. *)
Definition identity_schedule (stmts : list ScopStmt) : isl_schedule :=
  [map SIter (seq 0 (model_depth stmts)); [SSeq]].

(** Original execution order of two statement instances. *)
Definition before (stmts : list ScopStmt) (a b : instance) : bool :=
  lex_ltb (timestamp (identity_schedule stmts) a)
          (timestamp (identity_schedule stmts) b).

(** A dependence edge together with the array element it goes through. *)
Record dep_edge := mk_edge {
  dep_src : instance;
  dep_tgt : instance;
  dep_elem : element
}.

(** A write to [e] that executes strictly between [s] and [t]. *)
Definition intervening_write (env : valuation) (stmts : list ScopStmt)
    (insts : list instance) (s t : instance) (e : element) : bool :=
  existsb (fun w => touches env stmts MK_WRITE w e
                    && before stmts s w && before stmts w t) insts.

(** Modelled from the spec: the dependence computation (isl's dependence
    analysis is not in the source files).  Source accesses of kind [ks],
    target accesses of kind [kt], same array element, source before target
    in original execution order, and no write to that element in between
    (last write for RAW, adjacent writes for WAW, next write for WAR). *)
Definition dependences_of (env : valuation) (stmts : list ScopStmt)
    (ks kt : MemoryKind) : list dep_edge :=
  let insts := instances env stmts in
  flat_map (fun t =>
    flat_map (fun e =>
      flat_map (fun s =>
        if touches env stmts ks s e && before stmts s t
           && negb (intervening_write env stmts insts s t e)
        then [mk_edge s t e] else [])
      insts)
    (accessed env stmts kt t))
  insts.

Inductive dependence_kind :=
| ISL_DEPENDENCE_RAW
| ISL_DEPENDENCE_WAW
| ISL_DEPENDENCE_WAR.

Definition dependence_edges (env : valuation) (stmts : list ScopStmt)
    (kind : dependence_kind) : list dep_edge :=
  match kind with
  | ISL_DEPENDENCE_RAW => dependences_of env stmts MK_WRITE MK_READ
  | ISL_DEPENDENCE_WAW => dependences_of env stmts MK_WRITE MK_WRITE
  | ISL_DEPENDENCE_WAR => dependences_of env stmts MK_READ MK_WRITE
  end.

Definition edge_pair (d : dep_edge) : instance * instance :=
  (dep_src d, dep_tgt d).

(** Modelled from the spec: the relation [isl_dependence_from_scop]
    returns for a kind of dependence, as a relation between instances. *)
Definition dependence_relation (env : valuation) (stmts : list ScopStmt)
    (kind : dependence_kind) : isl_union_map :=
  map edge_pair (dependence_edges env stmts kind).

(** [DependenceInfo]: the three relations computed by [analyze]. *)
Record DependenceInfo := mk_depinfo {
  getRAWDependences : isl_union_map;
  getWAWDependences : isl_union_map;
  getWARDependences : isl_union_map
}.

(** Modelled from the spec: [DependenceInfo::analyze] on the statements
    of a model (the class is not in the source files). *)
Definition analyze_model (env : valuation) (stmts : list ScopStmt)
    : DependenceInfo :=
  mk_depinfo (dependence_relation env stmts ISL_DEPENDENCE_RAW)
             (dependence_relation env stmts ISL_DEPENDENCE_WAW)
             (dependence_relation env stmts ISL_DEPENDENCE_WAR).

Definition getAllDependences (D : DependenceInfo) : isl_union_map :=
  isl_union_map_union
    (isl_union_map_union (getRAWDependences D) (getWAWDependences D))
    (getWARDependences D).

(** Modelled from the spec: the legality predicate on one dependence.
    The source gets a timestamp lexicographically before the target's;
    equal timestamps are allowed only for one and the same instance. *)
Definition respects (sch : isl_schedule) (e : instance * instance) : bool :=
  match lex_compare (timestamp sch (fst e)) (timestamp sch (snd e)) with
  | Lt => true
  | Eq => bool_decide (fst e = snd e)
  | Gt => false
  end.

(** Modelled from the spec: [isl_schedule_fulfills_dependences] (not in
    the source files), the legality predicate on every dependence. *)
Definition fulfills_dependences (sch : isl_schedule) (deps : isl_union_map)
    : bool :=
  forallb (respects sch) deps.

(** A schedule orders the source of a dependence edge at or before its
    target, with equal timestamps only for one and the same instance. *)
Definition legal_edge (sch : isl_schedule) (e : instance * instance) : Prop :=
  lex_compare (timestamp sch (fst e)) (timestamp sch (snd e)) = Lt \/
  (lex_compare (timestamp sch (fst e)) (timestamp sch (snd e)) = Eq /\
   fst e = snd e).

Definition legal (sch : isl_schedule) (deps : isl_union_map) : Prop :=
  forall e, In e deps -> legal_edge sch e.

(** Modelled from the spec: a well-formed model/dependence pair.  Every
    dependence has its source before its target in the original execution
    order, which is how dependences are derived. *)
Definition well_formed_pair (stmts : list ScopStmt) (deps : isl_union_map)
    : Prop :=
  forall e, In e deps -> before stmts (fst e) (snd e) = true.

(** The order in which a schedule executes a list of statement instances:
    sorted by timestamp, instances with equal timestamps kept in the order
    given. *)
Fixpoint insert_by {A : Type} (leb : A -> A -> bool) (x : A) (l : list A)
    : list A :=
  match l with
  | [] => [x]
  | y :: l' => if leb x y then x :: l else y :: insert_by leb x l'
  end.

Definition sort_by {A : Type} (leb : A -> A -> bool) (l : list A) : list A :=
  fold_right (insert_by leb) [] l.

Definition execution_order (sch : isl_schedule) (insts : list instance)
    : list instance :=
  sort_by (fun a b => lex_leb (timestamp sch a) (timestamp sch b)) insts.

End Polly.

(** ** The LLVM objects the passes walk over *)
Module LLVM.

Inductive Opcode := OpStore | OpLoad | OpOther.

(** An instruction: its address (its identity as a pointer) and opcode. *)
Record Instruction := mk_inst { inst_addr : nat; inst_opcode : Opcode }.

Definition isa_StoreInst (I : Instruction) : bool :=
  match inst_opcode I with OpStore => true | _ => false end.

Definition isa_LoadInst (I : Instruction) : bool :=
  match inst_opcode I with OpLoad => true | _ => false end.

Definition BasicBlock := list Instruction.

Record Loop := mk_loop {
  getHeader : BasicBlock;
  getLoopBody : BasicBlock;
  getBlocks : list BasicBlock
}.

Inductive PreservedAnalyses := PreservedAnalyses_all | PreservedAnalyses_none.

End LLVM.

(** ** worker.cpp *)
Module Worker.
Import Isl Polly LLVM.

(** A statement as [buildScop] creates it.  Its domain and its access
    relations are the pointers the isl reader returned for the texts in
    the source; a null pointer is [None]. *)
Record ScopStmt := mk_stmt {
  stmt_id : isl_id;
  stmt_domain : option isl_set;
  stmt_accesses : list (MemoryKind * option isl_map)
}.

(** [new ScopStmt(id, domain)] and [Stmt->addAccess(kind, map)]. *)
Definition ScopStmt_new (id : isl_id) (dom : option isl_set) : ScopStmt :=
  mk_stmt id dom [].

Definition ScopStmt_addAccess (k : MemoryKind) (m : option isl_map)
    (st : ScopStmt) : ScopStmt :=
  mk_stmt (stmt_id st) (stmt_domain st) (stmt_accesses st ++ [(k, m)]).

Record Scop := mk_scop {
  getBasicBlocks : list BasicBlock;
  getStmts : list ScopStmt;
  getSchedule : option isl_schedule
}.

(** [new Scop(Loop)]: no block, no statement, no schedule yet.  The loop
    and the function the model points back to are read by none of the
    steps and are left out. *)
Definition Scop_new (L : Loop) : Scop := mk_scop [] [] None.

Definition addBasicBlock (BB : BasicBlock) (S : Scop) : Scop :=
  mk_scop (getBasicBlocks S ++ [BB]) (getStmts S) (getSchedule S).

Definition addStmt (st : ScopStmt) (S : Scop) : Scop :=
  mk_scop (getBasicBlocks S) (getStmts S ++ [st]) (getSchedule S).

Definition setSchedule (sch : isl_schedule) (S : Scop) : Scop :=
  mk_scop (getBasicBlocks S) (getStmts S) (Some sch).

(** A [ScopStmt*] held by the model is the position of the statement in
    the model's list; a call through the pointer updates the statement in
    place. *)
Definition through_stmt (p : nat) (f : ScopStmt -> ScopStmt) (S : Scop) : Scop :=
  mk_scop (getBasicBlocks S) (alter f p (getStmts S)) (getSchedule S).

(** [detectScops]: one SCoP per loop the detector accepts, holding the
    loop's header and body. *)
Definition detectScops (isScop : Loop -> bool) (Loops : list Loop) : list Scop :=
  flat_map (fun L =>
              if isScop L
              then [addBasicBlock (getLoopBody L)
                      (addBasicBlock (getHeader L) (Scop_new L))]
              else [])
           Loops.

(** The reader of isl's textual notation.  isl is not part of the source
    files, so the reader is a parameter of [buildScop]; like every isl
    function it returns a null pointer for a text it rejects. *)
Class Readers := {
  isl_set_read_from_str : string -> option isl_set;
  isl_map_read_from_str : string -> option isl_map
}.

Section Builder.
Context {R : Readers}.

(** The body of the two loops of [buildScop]: a store becomes a statement
    with its domain, a write access and a read access; every other
    instruction is skipped. *)
Definition liftInstruction (Inst : Instruction) (S : Scop) : Scop :=
  if isa_StoreInst Inst then
    let StmtID := isl_id_alloc "Stmt" (inst_addr Inst) in
    let Domain :=
      isl_set_read_from_str "{ [i,j] : 0 <= i < N and 0 <= j < M }" in
    let Stmt := length (getStmts S) in
    let S := addStmt (ScopStmt_new StmtID Domain) S in
    let WriteAccess := isl_map_read_from_str "{ [i,j] -> C[i,j] }" in
    let S := through_stmt Stmt (ScopStmt_addAccess MK_WRITE WriteAccess) S in
    let ReadAccess := isl_map_read_from_str "{ [i,j] -> A[i,j] }" in
    through_stmt Stmt (ScopStmt_addAccess MK_READ ReadAccess) S
  else S.

Definition buildScop (S : Scop) : Scop :=
  fold_left (fun S StmtBB => fold_left (fun S Inst => liftInstruction Inst S) StmtBB S)
            (getBasicBlocks S) S.

(** The statement the model holds for a store once both accesses have been
    added through the statement pointer. *)
Definition storeStmt (Inst : Instruction) : ScopStmt :=
  mk_stmt (isl_id_alloc "Stmt" (inst_addr Inst))
          (isl_set_read_from_str "{ [i,j] : 0 <= i < N and 0 <= j < M }")
          [(MK_WRITE, isl_map_read_from_str "{ [i,j] -> C[i,j] }");
           (MK_READ, isl_map_read_from_str "{ [i,j] -> A[i,j] }")].

(** The reader returns a two-dimensional set for the domain text and
    relations with a two-dimensional source for the two access texts. *)
Definition reads_two_dimensional : Prop :=
  (exists D, isl_set_read_from_str "{ [i,j] : 0 <= i < N and 0 <= j < M }" = Some D /\
             isl_set_dim D = 2%nat) /\
  (exists W, isl_map_read_from_str "{ [i,j] -> C[i,j] }" = Some W /\
             map_in_dim W = 2%nat) /\
  (exists Rd, isl_map_read_from_str "{ [i,j] -> A[i,j] }" = Some Rd /\
              map_in_dim Rd = 2%nat).

End Builder.

(** A statement that stems from a store instruction of the blocks. *)
Definition lifted_from_store (blocks : list BasicBlock) (st : ScopStmt) : Prop :=
  exists Inst,
    In Inst (concat blocks) /\ inst_opcode Inst = OpStore /\
    stmt_id st = isl_id_alloc "Stmt" (inst_addr Inst).

(** The accesses and the domain have one and the same two-dimensional
    source space. *)
Definition two_dimensional (st : ScopStmt) : Prop :=
  (exists D, stmt_domain st = Some D /\ isl_set_dim D = 2%nat) /\
  Forall (fun a => exists m, snd a = Some m /\ map_in_dim m = 2%nat)
         (stmt_accesses st).

(** What worker.cpp calls and neither file defines. *)
Class Externals := {
  DependenceInfo_analyze : Scop -> DependenceInfo;
  buildInitialSchedule : Scop -> isl_schedule;
  isl_schedule_node_band_tile : isl_schedule -> list Z -> isl_schedule;
  isl_schedule_fulfills_dependences : isl_schedule -> isl_union_map -> bool
}.

Section Optimizer.
Context {X : Externals}.

(** [analyzeDependencies] returns nothing: [DepInfo] is a local of the
    function and is gone when it returns.  What the call leaves behind is
    the line it prints, the RAW relation of the model. *)
Definition analyzeDependencies (S : Scop) : isl_union_map :=
  let DepInfo := DependenceInfo_analyze S in
  let RAW := getRAWDependences DepInfo in
  let WAW := getWAWDependences DepInfo in
  let WAR := getWARDependences DepInfo in
  RAW.

(** [optimizeSchedule] against a given dependence relation: tile the
    initial schedule by 32 x 32, keep the tiled schedule if it fulfils the
    dependences, fall back to the initial schedule otherwise. *)
Definition chooseSchedule (deps : isl_union_map) (S : Scop) : isl_schedule :=
  let CurrentSchedule := buildInitialSchedule S in
  let Optimized := isl_schedule_node_band_tile CurrentSchedule [32; 32] in
  if negb (isl_schedule_fulfills_dependences Optimized deps)
  then CurrentSchedule
  else Optimized.

Definition optimizeScheduleWith (deps : isl_union_map) (S : Scop) : Scop :=
  setSchedule (chooseSchedule deps S) S.

(** [optimizeSchedule].  The check reads an object named [DepInfo] that
    the function neither declares nor receives; it is not the local of
    [analyzeDependencies], which no other function can reach.  It is an
    input of its own here. *)
Definition optimizeSchedule (DepInfo : DependenceInfo) (S : Scop) : Scop :=
  optimizeScheduleWith (getAllDependences DepInfo) S.

End Optimizer.

(** The statement of the polyhedral model a [ScopStmt] stands for: without
    a domain it has no instance, and a null access relation is no access. *)
Definition model_stmt (st : ScopStmt) : Polly.ScopStmt :=
  Polly.mk_stmt
    (stmt_id st)
    (match stmt_domain st with
     | Some D => D
     | None => mk_set [(aff_cst 0, aff_cst 0)]
     end)
    (flat_map (fun a => match snd a with
                        | Some m => [(fst a, m)]
                        | None => []
                        end)
              (stmt_accesses st)).

Definition model_stmts (S : Scop) : list Polly.ScopStmt :=
  map model_stmt (getStmts S).

(** Modelled from the spec: the four functions worker.cpp calls and does
    not define, for a region whose symbolic parameters have the values
    [env].  The dependences are those of the region at these values, and
    the check is exact for the relation it is handed; it is not a test over
    all values of the parameters. *)
Definition specExternals (env : valuation) : Externals := {|
  DependenceInfo_analyze := fun S => analyze_model env (model_stmts S);
  buildInitialSchedule := fun S => identity_schedule (model_stmts S);
  isl_schedule_node_band_tile := tile_root_band;
  isl_schedule_fulfills_dependences := fulfills_dependences
|}.

End Worker.

(** ** worker2.cpp *)
Module Worker2.
Import Isl Polly LLVM.

Inductive schedule_algorithm :=
| ISL_SCHEDULE_ALGORITHM_ISL
| ISL_SCHEDULE_ALGORITHM_FEAUTRIER.

(** The part of an isl context the passes write to. *)
Record isl_ctx := mk_ctx { ctx_schedule_algorithm : schedule_algorithm }.

Definition isl_options_set_schedule_algorithm (ctx : isl_ctx)
    (a : schedule_algorithm) : isl_ctx :=
  mk_ctx a.

Definition isl_union_set := list isl_set.

(** [MemoryAccess::READ], [MemoryAccess::WRITE]. *)
Inductive AccessType := MemoryAccess_READ | MemoryAccess_WRITE.

Record MemoryAccess := mk_access {
  getAccessRelation : isl_map;
  getType : AccessType
}.

Record Scop := mk_scop {
  getDomain : isl_union_set;
  getAccesses : list MemoryAccess;
  getSchedule : isl_schedule;
  getDependences : isl_union_map;
  getIslCtx : isl_ctx
}.

(** [std::make_unique<Scop>(&F)]: an empty model. *)
Definition Scop_new : Scop :=
  mk_scop [] [] [] [] (mk_ctx ISL_SCHEDULE_ALGORITHM_ISL).

Definition addDomain (d : isl_set) (S : Scop) : Scop :=
  mk_scop (getDomain S ++ [d]) (getAccesses S) (getSchedule S)
          (getDependences S) (getIslCtx S).

Definition addAccess (a : MemoryAccess) (S : Scop) : Scop :=
  mk_scop (getDomain S) (getAccesses S ++ [a]) (getSchedule S)
          (getDependences S) (getIslCtx S).

Definition setSchedule (sch : isl_schedule) (S : Scop) : Scop :=
  mk_scop (getDomain S) (getAccesses S) sch (getDependences S) (getIslCtx S).

Definition setIslCtx (ctx : isl_ctx) (S : Scop) : Scop :=
  mk_scop (getDomain S) (getAccesses S) (getSchedule S) (getDependences S) ctx.

(** The metadata node [S->getAsMDNode(...)] wraps a model in. *)
Record MDNode := getAsMDNode { MDNode_scop : Scop }.

Record Function := mk_function {
  fn_body : list BasicBlock;
  fn_loops : list Loop;                  (* the result of LoopAnalysis *)
  fn_metadata : gmap string MDNode
}.

(** [F.setMetadata(key, node)]. *)
Definition setMetadata (key : string) (md : MDNode) (F : Function) : Function :=
  mk_function (fn_body F) (fn_loops F) (<[key := md]> (fn_metadata F)).

(** [getScopFromMetadata] (not in the source files) reads back the model
    [BuildScopPass::run] stores under "polly.scop"; a null pointer is
    [None]. *)
Definition getScopFromMetadata (F : Function) : option Scop :=
  match fn_metadata F !! "polly.scop"%string with
  | Some md => Some (MDNode_scop md)
  | None => None
  end.

Record ScopDetectionResult := mk_result { getLoops : list Loop }.

Definition addLoop (L : Loop) (R : ScopDetectionResult) : ScopDetectionResult :=
  mk_result (getLoops R ++ [L]).

(** [DependenceInfo(Dependences)]; [DependenceInfo()] holds no edge. *)
Record DependenceInfo := mk_DependenceInfo { depinfo_map : isl_union_map }.

(** What the passes call and the two files do not define, the AST build
    and the three calls that set it up included.  Each call returns its
    result; none changes an object it is handed. *)
Class Helpers := {
  isEligibleForScop : Function -> bool;
  isAffineLoop : Loop -> bool;
  extractLoopDomain : Loop -> isl_ctx -> isl_set;
  buildAccessMap : Instruction -> isl_ctx -> isl_map;
  getIslScop : Scop -> list ScopStmt;
  isl_dependence_from_scop : list ScopStmt -> dependence_kind -> isl_union_map;
  isl_schedule_from_domain_and_dependences :
    isl_ctx -> isl_union_set -> isl_union_map -> isl_union_map -> isl_schedule;
  isl_ast_build : Type;
  isl_ast_build_alloc : isl_ctx -> isl_ast_build;
  isl_ast_build_set_at_each_domain : isl_ast_build -> string -> isl_ast_build;
  isl_ast_build_set_option : isl_ast_build -> isl_ast_build -> isl_ast_build;
  isl_ast_node : Type;
  isl_ast_build_node_from_schedule : isl_ast_build -> isl_schedule -> isl_ast_node;
  generateLLVMFromAST : isl_ast_node -> Function -> Function
}.

Section Passes.
Context {H : Helpers}.

(** The loop of [ScopDetectionPass::run]: the first affine loop ends the
    search. *)
Fixpoint firstAffineLoop (LI : list Loop) : option ScopDetectionResult :=
  match LI with
  | [] => None
  | L :: rest =>
      if isAffineLoop L
      then Some (addLoop L (mk_result []))
      else firstAffineLoop rest
  end.

Definition ScopDetectionPass_run (F : Function) : option ScopDetectionResult :=
  if negb (isEligibleForScop F) then None
  else firstAffineLoop (fn_loops F).

(** The innermost loop body of [BuildScopPass::run]. *)
Definition collectAccess (Ctx : isl_ctx) (S : Scop) (I : Instruction) : Scop :=
  if isa_StoreInst I || isa_LoadInst I then
    let AccessMap := buildAccessMap I Ctx in
    let Type' :=
      if isa_StoreInst I then MemoryAccess_WRITE else MemoryAccess_READ in
    addAccess (mk_access AccessMap Type') S
  else S.

Definition collectLoop (Ctx : isl_ctx) (S : Scop) (L : Loop) : Scop :=
  let LoopDomain := extractLoopDomain L Ctx in
  let S := addDomain LoopDomain S in
  fold_left (fun S BB => fold_left (collectAccess Ctx) BB S) (getBlocks L) S.

Definition BuildScopPass_run (F : Function) : PreservedAnalyses * Function :=
  match ScopDetectionPass_run F with
  | None => (PreservedAnalyses_all, F)
  | Some ScopDetect =>
      let S := Scop_new in
      let Ctx := getIslCtx S in
      let S := fold_left (collectLoop Ctx) (getLoops ScopDetect) S in
      (PreservedAnalyses_none, setMetadata "polly.scop" (getAsMDNode S) F)
  end.

(** The access [BuildScopPass::run] records for a load or store. *)
Definition accessOf (Ctx : isl_ctx) (I : Instruction) : MemoryAccess :=
  mk_access (buildAccessMap I Ctx)
            (if isa_StoreInst I then MemoryAccess_WRITE else MemoryAccess_READ).

Definition isMemoryInst (I : Instruction) : bool :=
  isa_StoreInst I || isa_LoadInst I.

Definition DependenceAnalysisPass_run (F : Function) : DependenceInfo :=
  match getScopFromMetadata F with
  | None => mk_DependenceInfo isl_union_map_empty
  | Some scop =>
      let Dependences := isl_union_map_empty in
      let RAW := isl_dependence_from_scop (getIslScop scop) ISL_DEPENDENCE_RAW in
      let Dependences := isl_union_map_union Dependences RAW in
      let WAW := isl_dependence_from_scop (getIslScop scop) ISL_DEPENDENCE_WAW in
      let Dependences := isl_union_map_union Dependences WAW in
      let WAR := isl_dependence_from_scop (getIslScop scop) ISL_DEPENDENCE_WAR in
      let Dependences := isl_union_map_union Dependences WAR in
      mk_DependenceInfo Dependences
  end.

(** The model after [OptimizeSchedulePass::run] has worked on it through
    the pointer [S]. *)
Definition optimizeScop (S : Scop) : Scop :=
  let Ctx := getIslCtx S in
  let Current := getSchedule S in
  let Ctx := isl_options_set_schedule_algorithm Ctx ISL_SCHEDULE_ALGORITHM_ISL in
  let S := setIslCtx Ctx S in
  let Optimized :=
    isl_schedule_from_domain_and_dependences
      Ctx (getDomain S) (getDependences S) isl_union_map_empty in
  setSchedule Optimized S.

(** The pass updates the model the metadata of [F] points to; the function
    returned carries the updated model. *)
Definition OptimizeSchedulePass_run (F : Function) : PreservedAnalyses * Function :=
  match getScopFromMetadata F with
  | None => (PreservedAnalyses_all, F)
  | Some scop =>
      (PreservedAnalyses_none,
       setMetadata "polly.scop" (getAsMDNode (optimizeScop scop)) F)
  end.

(** The pass drops what [isl_ast_build_set_option] returns: the AST is
    built from [Build] as [isl_ast_build_alloc] returned it. *)
Definition CodeGenPass_run (F : Function) : PreservedAnalyses * Function :=
  match getScopFromMetadata F with
  | None => (PreservedAnalyses_all, F)
  | Some scop =>
      let Ctx := getIslCtx scop in
      let FinalSchedule := getSchedule scop in
      let Build := isl_ast_build_alloc Ctx in
      let _ :=
        isl_ast_build_set_option Build
          (isl_ast_build_set_at_each_domain Build
             "{domain[i,j] -> tile[floor(i/32), floor(j/32)]]}") in
      let AST := isl_ast_build_node_from_schedule Build FinalSchedule in
      (PreservedAnalyses_none, generateLLVMFromAST AST F)
  end.

End Passes.

End Worker2.

(** ** worker.cpp: code generation and [main] *)
Module Codegen.
Import Isl Polly LLVM.

(** An AST node as [generateCode] looks at it: the two tests it asks, the
    statements of a block and the children. *)
#[local] Unset Elimination Schemes.
Inductive isl_ast_node := mk_ast_node {
  isLoop : bool;
  isBlock : bool;
  getStatements : list ScopStmt;
  getChildren : list isl_ast_node
}.
#[local] Set Elimination Schemes.

(** What [generateCode] emits: the calls it makes to the two emitters, in
    the order it makes them. *)
Inductive Emitted :=
| createLoopFromNode (Node : isl_ast_node)
| rematerializeStatement (Stmt : ScopStmt).

(** What [generateCode] calls and neither file defines.  The schedule is
    handed on as the model holds it, set or not. *)
Class Externals := {
  isl_ast_build : Type;
  isl_ast_build_from_schedule : option isl_schedule -> isl_ast_build;
  isl_ast_build_node_from_schedule :
    isl_ast_build -> option isl_schedule -> isl_ast_node
}.

(** How a run of [main] ends: in a read through a null [Scop*], or with
    [return 0] after the dependences printed and the emitter calls made. *)
Inductive Outcome :=
| NullDereference
| Returned (printed : isl_union_map) (IR : list Emitted).

(** The body of the loop over the children of the AST. *)
Definition visitNode (IR : list Emitted) (Node : isl_ast_node) : list Emitted :=
  if isLoop Node then
    IR ++ [createLoopFromNode Node]
  else if isBlock Node then
    fold_left (fun IR Stmt => IR ++ [rematerializeStatement Stmt])
              (getStatements Node) IR
  else IR.

Section Generate.
Context {G : Externals}.

Definition generateCode (S : Worker.Scop) : list Emitted :=
  let FinalSchedule := Worker.getSchedule S in
  let Build := isl_ast_build_from_schedule FinalSchedule in
  let AST := isl_ast_build_node_from_schedule Build FinalSchedule in
  fold_left visitNode (getChildren AST) [].

(** [main]: the five steps in order.  [getFirstScop] is not in the source
    files, and nothing in them links it to the SCoPs [detectScops]
    creates, each of which is held by a local pointer only: the pointer it
    returns is an input, null included.  [buildScop] reads through that
    pointer unchecked.  [DepInfo] is the object [optimizeSchedule] reads
    at its check. *)
Definition main {R : Worker.Readers} {X : Worker.Externals}
    (isScop : Loop -> bool) (Loops : list Loop)
    (getFirstScop : option Worker.Scop) (DepInfo : DependenceInfo) : Outcome :=
  let created := Worker.detectScops isScop Loops in
  match getFirstScop with
  | None => NullDereference
  | Some scop =>
      let S := Worker.buildScop scop in
      let printed := Worker.analyzeDependencies S in
      let S := Worker.optimizeSchedule DepInfo S in
      Returned printed (generateCode S)
  end.

End Generate.

(** What one child of the AST contributes. *)
Definition nodeActions (Node : isl_ast_node) : list Emitted :=
  if isLoop Node then [createLoopFromNode Node]
  else if isBlock Node then map rematerializeStatement (getStatements Node)
  else [].

End Codegen.

(** ** worker2.cpp: registration of the passes *)
Module Registration.
Import LLVM Worker2.

Inductive Pass :=
| Pass_BuildScop
| Pass_DependenceAnalysis
| Pass_OptimizeSchedule
| Pass_CodeGen.

Inductive AnalysisPass := Analysis_ScopDetection.

(** A pass manager holds its passes in the order they were added. *)
Definition FunctionPassManager := list Pass.

Definition addPass (P : Pass) (FPM : FunctionPassManager) : FunctionPassManager :=
  FPM ++ [P].

Definition FunctionAnalysisManager := list AnalysisPass.

Definition registerPass (A : AnalysisPass) (FAM : FunctionAnalysisManager)
    : FunctionAnalysisManager :=
  FAM ++ [A].

Record PassBuilder := mk_builder {
  analysisRegistrationCallbacks :
    list (FunctionAnalysisManager -> FunctionAnalysisManager);
  pipelineParsingCallbacks :
    list (string -> FunctionPassManager -> bool -> bool * FunctionPassManager)
}.

(** The first lambda of [registerPollyPasses]. *)
Definition registerAnalyses (FAM : FunctionAnalysisManager)
    : FunctionAnalysisManager :=
  registerPass Analysis_ScopDetection FAM.

(** The second lambda: the pipeline element "polly-scop". *)
Definition parsePipeline (Name : string) (FPM : FunctionPassManager) (_ : bool)
    : bool * FunctionPassManager :=
  if String.eqb Name "polly-scop" then
    let FPM := addPass Pass_BuildScop FPM in
    let FPM := addPass Pass_DependenceAnalysis FPM in
    let FPM := addPass Pass_OptimizeSchedule FPM in
    let FPM := addPass Pass_CodeGen FPM in
    (true, FPM)
  else (false, FPM).

Definition registerPollyPasses (PB : PassBuilder) : PassBuilder :=
  mk_builder (analysisRegistrationCallbacks PB ++ [registerAnalyses])
             (pipelineParsingCallbacks PB ++ [parsePipeline]).

Section Run.
Context {H : Helpers}.

(** The function after one pass has run on it.  The dependence analysis
    returns its result and leaves the function alone. *)
Definition runPass (P : Pass) (F : Function) : Function :=
  match P with
  | Pass_BuildScop => snd (BuildScopPass_run F)
  | Pass_DependenceAnalysis => F
  | Pass_OptimizeSchedule => snd (OptimizeSchedulePass_run F)
  | Pass_CodeGen => snd (CodeGenPass_run F)
  end.

(** A function pass manager runs its passes in order on the function. *)
Definition runPasses (FPM : FunctionPassManager) (F : Function) : Function :=
  fold_left (fun F P => runPass P F) FPM F.

End Run.

End Registration.

(** ** The polyhedral model of the design document *)
Module Model.
Import Isl Polly.

(** Modelled from the spec: the polyhedral model of sections 3 and 4.1 and
    its construction from the region descriptor of section 6.  The source
    files only forward-declare the class [Scop] that holds the model; its
    constructor and its [add...] methods, where the design document places
    the two checks, are not in them. *)

























End Model.

(** ** Sample inputs *)
Module Samples.
Import Isl Polly LLVM.

Definition store1 : Instruction := mk_inst 1 OpStore.
Definition load2 : Instruction := mk_inst 2 OpLoad.
Definition other3 : Instruction := mk_inst 3 OpOther.
Definition store4 : Instruction := mk_inst 4 OpStore.

(** A loop with a load in its header and two stores in its body. *)
Definition loopA : Loop :=
  mk_loop [load2] [store1; other3; store4] [[load2]; [store1; other3; store4]].

(** A loop with an empty header. *)
Definition loopB : Loop := mk_loop [] [store1] [[store1]].

Definition loopC : Loop := mk_loop [other3] [store4] [[other3]; [store4]].

(** The model [detectScops] sets up for [loopA]. *)
Definition scopA : Worker.Scop :=
  Worker.addBasicBlock (getLoopBody loopA)
    (Worker.addBasicBlock (getHeader loopA) (Worker.Scop_new loopA)).

(** A dependence of distance (1, -1) across a tile border: the instance
    [0, 32] of the first statement before the instance [1, 31]. *)
Definition skewed : isl_union_map := [((0%nat, [0; 32]), (0%nat, [1; 31]))].

Definition params4 : valuation := fun _ => 4.

(** Two statements over [0 <= i < N, 0 <= j < M]: the first writes
    [C[i,j]], the second reads [C[i,j]] and [A[i,j]] and writes [C[i,j]]. *)
Definition box : isl_set :=
  mk_set [(aff_cst 0, aff_param "N"); (aff_cst 0, aff_param "M")].

Definition initC : ScopStmt :=
  mk_stmt (isl_id_alloc "S0" 0) box
          [(MK_WRITE, mk_map 2 "C" [aff_var 0; aff_var 1])].

Definition accumC : ScopStmt :=
  mk_stmt (isl_id_alloc "S1" 1) box
          [(MK_WRITE, mk_map 2 "C" [aff_var 0; aff_var 1]);
           (MK_READ, mk_map 2 "C" [aff_var 0; aff_var 1]);
           (MK_READ, mk_map 2 "A" [aff_var 0; aff_var 1])].

(** A running sum over [1 <= i < 10]: [P[i]] is written from [P[i-1]]. *)
Definition prefixSum : ScopStmt :=
  mk_stmt (isl_id_alloc "S" 0) (mk_set [(aff_cst 1, aff_cst 10)])
          [(MK_WRITE, mk_map 1 "P" [aff_var 0]);
           (MK_READ, mk_map 1 "P" [mk_aff (-1) [1] []])].

Definition flowEdge : dep_edge :=
  mk_edge (0%nat, [0; 0]) (1%nat, [0; 0]) ("C"%string, [0; 0]).

(** A reader that takes [N] and [M] in the domain text for parameters of
    the region. *)
#[local] Instance sampleReaders : Worker.Readers := {|
  Worker.isl_set_read_from_str := fun str =>
    if String.eqb str "{ [i,j] : 0 <= i < N and 0 <= j < M }"
    then Some box else None;
  Worker.isl_map_read_from_str := fun str =>
    if String.eqb str "{ [i,j] -> C[i,j] }"
    then Some (mk_map 2 "C" [aff_var 0; aff_var 1])
    else if String.eqb str "{ [i,j] -> A[i,j] }"
    then Some (mk_map 2 "A" [aff_var 0; aff_var 1])
    else None
|}.

(** A reader that rejects the domain text, as isl does: the text uses [N]
    and [M] and declares no parameter (no [[N, M] -> ] in front of the
    set).  The two access texts use no parameter and are read. *)
Definition strictReaders : Worker.Readers := {|
  Worker.isl_set_read_from_str := fun _ => None;
  Worker.isl_map_read_from_str := @Worker.isl_map_read_from_str sampleReaders
|}.




(** A [DependenceInfo] no analysis has filled. *)
Definition unanalysed : DependenceInfo := mk_depinfo [] [] [].

(** The externals of worker.cpp at [N = M = 4]. *)
#[local] Instance sampleExternals : Worker.Externals :=
  Worker.specExternals params4.

(** Helpers for worker2.cpp with the domain and the access map of the
    comments in [BuildScopPass::run]: [{ i : 0 <= i < N }] and
    [[i,j] -> A[i][j]].  A loop counts as affine when its header is not
    empty. *)
#[local] Instance sampleHelpers : Worker2.Helpers := {|
  Worker2.isEligibleForScop := fun F => negb (Nat.eqb (length (Worker2.fn_body F)) 0);
  Worker2.isAffineLoop := fun L => negb (Nat.eqb (length (getHeader L)) 0);
  Worker2.extractLoopDomain := fun _ _ => mk_set [(aff_cst 0, aff_param "N")];
  Worker2.buildAccessMap := fun _ _ => mk_map 2 "A" [aff_var 0; aff_var 1];
  Worker2.getIslScop := fun _ => [];
  Worker2.isl_dependence_from_scop := dependence_relation params4;
  Worker2.isl_schedule_from_domain_and_dependences :=
    fun _ dom _ _ => [map SIter (seq 0 (length dom)); [SSeq]];
  Worker2.isl_ast_build := Worker2.isl_ctx * list string;
  Worker2.isl_ast_build_alloc := fun ctx => (ctx, []);
  Worker2.isl_ast_build_set_at_each_domain := fun b str => (fst b, snd b ++ [str]);
  Worker2.isl_ast_build_set_option := fun b opt => (fst b, snd opt);
  Worker2.isl_ast_node := list string * isl_schedule;
  Worker2.isl_ast_build_node_from_schedule := fun b sch => (snd b, sch);
  Worker2.generateLLVMFromAST := fun _ F => F
|}.

(** A function with three loops and no metadata. *)
Definition fnA : Worker2.Function :=
  Worker2.mk_function [[load2]; [store1; other3; store4]] [loopB; loopA; loopC] ∅.

(** A function without a body. *)
Definition fnEmpty : Worker2.Function := Worker2.mk_function [] [loopA] ∅.

(** [fnA] after model construction, and again with another schedule and
    scheduling algorithm stored in the model. *)
Definition fnA1 : Worker2.Function := snd (Worker2.BuildScopPass_run fnA).

Definition scopA1 : Worker2.Scop :=
  Worker2.mk_scop
    [mk_set [(aff_cst 0, aff_param "N")]]
    [Worker2.mk_access (mk_map 2 "A" [aff_var 0; aff_var 1]) Worker2.MemoryAccess_READ;
     Worker2.mk_access (mk_map 2 "A" [aff_var 0; aff_var 1]) Worker2.MemoryAccess_WRITE;
     Worker2.mk_access (mk_map 2 "A" [aff_var 0; aff_var 1]) Worker2.MemoryAccess_WRITE]
    [] [] (Worker2.mk_ctx Worker2.ISL_SCHEDULE_ALGORITHM_ISL).

Definition scopA2 : Worker2.Scop :=
  Worker2.mk_scop [mk_set [(aff_cst 0, aff_param "N")]] [] [[SSeq]] []
                  (Worker2.mk_ctx Worker2.ISL_SCHEDULE_ALGORITHM_FEAUTRIER).

Definition fnA2 : Worker2.Function :=
  Worker2.setMetadata "polly.scop" (Worker2.getAsMDNode scopA2) fnA.














End Samples.

(** ** Further sample inputs *)
Module MoreSamples.
Import Isl Polly LLVM.

(** An AST whose root has four children: a loop with a block below it, a
    node that is neither loop nor block, a block with a loop below it, and
    a node that answers yes to both tests. *)
Definition innerBlock : Codegen.isl_ast_node :=
  Codegen.mk_ast_node false true [Samples.prefixSum] [].

Definition loopNode : Codegen.isl_ast_node :=
  Codegen.mk_ast_node true false [Samples.prefixSum] [innerBlock].

Definition markNode : Codegen.isl_ast_node :=
  Codegen.mk_ast_node false false [Samples.prefixSum] [].

Definition blockNode : Codegen.isl_ast_node :=
  Codegen.mk_ast_node false true [Samples.initC; Samples.accumC] [loopNode].

Definition bothNode : Codegen.isl_ast_node :=
  Codegen.mk_ast_node true true [Samples.prefixSum] [].

Definition rootNode : Codegen.isl_ast_node :=
  Codegen.mk_ast_node false false [] [loopNode; markNode; blockNode; bothNode].

(** An AST builder that returns [rootNode] for every schedule. *)
#[local] Instance sampleCodegen : Codegen.Externals := {|
  Codegen.isl_ast_build := unit;
  Codegen.isl_ast_build_from_schedule := fun _ => tt;
  Codegen.isl_ast_build_node_from_schedule := fun _ _ => rootNode
|}.

(** A detector that accepts the loops with a non-empty header. *)
Definition headerScop (L : Loop) : bool := negb (Nat.eqb (length (getHeader L)) 0).

(** A function that is not eligible and still carries a model. *)
Definition fnStale : Worker2.Function :=
  Worker2.setMetadata "polly.scop" (Worker2.getAsMDNode Samples.scopA2)
                      Samples.fnEmpty.

End MoreSamples.

Import Isl Polly LLVM.

(** * Facts about the lexicographic order *)

Lemma lex_compare_refl (a : list Z) : lex_compare a a = Eq.
Proof.
  induction a as [|x a IH]; simpl; [reflexivity|].
  now rewrite Z.compare_refl.
Qed.

Lemma lex_compare_eq (a b : list Z) : lex_compare a b = Eq -> a = b.
Proof.
  revert b; induction a as [|x a IH]; intros [|y b]; simpl; try discriminate; auto.
  destruct (x ?= y) eqn:E; try discriminate.
  intros Hc. apply Z.compare_eq in E. f_equal; auto.
Qed.

Lemma lex_compare_antisym (a b : list Z) :
  lex_compare b a = CompOpp (lex_compare a b).
Proof.
  revert b; induction a as [|x a IH]; intros [|y b]; simpl; auto.
  rewrite (Z.compare_antisym x y).
  destruct (x ?= y); simpl; auto.
Qed.

Lemma lex_compare_app (a a' b b' : list Z) :
  length a = length a' ->
  lex_compare (a ++ b) (a' ++ b') =
  match lex_compare a a' with Eq => lex_compare b b' | c => c end.
Proof.
  revert a'; induction a as [|x a IH]; intros [|y a']; simpl; try discriminate; auto.
  intros Hl. destruct (x ?= y); auto.
Qed.

Lemma lex_compare_trans (a b c : list Z) :
  lex_compare a b = Lt -> lex_compare b c = Lt -> lex_compare a c = Lt.
Proof.
  revert b c; induction a as [|x a IH]; intros [|y b] [|z c]; simpl;
    try discriminate; auto.
  destruct (x ?= y) eqn:Exy; try discriminate;
    destruct (y ?= z) eqn:Eyz; try discriminate; intros Hab Hbc.
  - apply Z.compare_eq in Exy, Eyz. subst. rewrite Z.compare_refl. eauto.
  - apply Z.compare_eq in Exy. subst. now rewrite Eyz.
  - apply Z.compare_eq in Eyz. subst. now rewrite Exy.
  - rewrite Z.compare_lt_iff in Exy, Eyz.
    assert (Hxz : x < z) by lia. apply Z.compare_lt_iff in Hxz. now rewrite Hxz.
Qed.

Lemma lex_compare_app_same (a b b' : list Z) :
  lex_compare (a ++ b) (a ++ b') = lex_compare b b'.
Proof. rewrite lex_compare_app by reflexivity. now rewrite lex_compare_refl. Qed.

(** * Timestamps *)

Lemma timestamp_app (s1 s2 : isl_schedule) (i : instance) :
  timestamp (s1 ++ s2) i = timestamp s1 i ++ timestamp s2 i.
Proof. unfold timestamp. apply flat_map_app. Qed.

Lemma timestamp_cons (b : band) (s : isl_schedule) (i : instance) :
  timestamp (b :: s) i = band_eval i b ++ timestamp s i.
Proof. reflexivity. Qed.

Lemma band_eval_length (i : instance) (b : band) :
  length (band_eval i b) = length b.
Proof. apply length_map. Qed.

Lemma timestamp_length (s : isl_schedule) (i j : instance) :
  length (timestamp s i) = length (timestamp s j).
Proof.
  induction s as [|b s IH]; simpl; [reflexivity|].
  rewrite !length_app, !band_eval_length. now rewrite IH.
Qed.

(** * Tiling *)

Lemma tile_outer_length (b : band) (T : list Z) :
  length T = length b -> length (tile_outer b T) = length b.
Proof.
  revert T; induction b as [|d b IH]; intros [|t T]; simpl; try discriminate; auto.
Qed.

Lemma tile_inner_length (b : band) (T : list Z) :
  length T = length b -> length (tile_inner b T) = length b.
Proof.
  revert T; induction b as [|d b IH]; intros [|t T]; simpl; try discriminate; auto.
Qed.

Lemma tile_outer_nth (i : instance) (b : band) (T : list Z) (j : nat) (t Tj : Z) :
  nth_error (band_eval i b) j = Some t -> nth_error T j = Some Tj ->
  nth_error (band_eval i (tile_outer b T)) j = Some (t / Tj).
Proof.
  revert T j; induction b as [|d b IH]; intros [|t0 T] [|j]; simpl; try discriminate.
  - intros [= <-] [= <-]. reflexivity.
  - intros Hb HT. now apply IH.
Qed.

Lemma tile_inner_nth (i : instance) (b : band) (T : list Z) (j : nat) (t Tj : Z) :
  nth_error (band_eval i b) j = Some t -> nth_error T j = Some Tj ->
  nth_error (band_eval i (tile_inner b T)) j = Some (t mod Tj).
Proof.
  revert T j; induction b as [|d b IH]; intros [|t0 T] [|j]; simpl; try discriminate.
  - intros [= <-] [= <-]. reflexivity.
  - intros Hb HT. now apply IH.
Qed.

Lemma band_tile_at_split (n : nat) (T : list Z) (sch : isl_schedule) (b : band) :
  nth_error sch n = Some b ->
  exists pre post,
    sch = pre ++ b :: post /\ length pre = n /\
    band_tile_at n T sch = pre ++ tile_outer b T :: tile_inner b T :: post.
Proof.
  revert sch; induction n as [|n IH]; intros [|b0 sch]; simpl; try discriminate.
  - intros [= ->]. exists [], sch. auto.
  - intros Hn. destruct (IH _ Hn) as (pre & post & -> & Hl & Ht).
    exists (b0 :: pre), post. simpl. rewrite Ht. auto.
Qed.

Lemma sizes_positive (T : list Z) (j : nat) (Tj : Z) :
  Forall (fun t => 0 < t) T -> nth_error T j = Some Tj -> 0 < Tj.
Proof.
  intros Hpos Hj. rewrite List.Forall_forall in Hpos.
  apply Hpos. eapply nth_error_In; eauto.
Qed.

Lemma floor_div_bounds (t T : Z) :
  0 < T -> T * (t / T) <= t < T * (t / T) + T /\ t = T * (t / T) + t mod T.
Proof.
  intros HT. pose proof (Z.mod_pos_bound t T HT).
  pose proof (Z.div_mod t T ltac:(lia)). lia.
Qed.

(** C4. Tiling a band of [k] schedule dimensions with strictly positive
    sizes [T] replaces the band by an outer band of tile coordinates
    followed by an inner band of point coordinates: coordinate [t] of the
    band becomes [floor(t / T_j)] in the outer and [t mod T_j] in the inner
    band, and the band takes twice its former width in every timestamp
    vector. *)
Theorem tiling_rewrites_band (sch : isl_schedule) (n : nat) (b : band) (T : list Z) :
  nth_error sch n = Some b ->
  length T = length b ->
  Forall (fun t => 0 < t) T ->
  exists pre post outer inner,
    sch = pre ++ b :: post /\ length pre = n /\
    band_tile_at n T sch = pre ++ outer :: inner :: post /\
    length outer = length b /\ length inner = length b /\
    forall i : instance,
      timestamp sch i = timestamp pre i ++ band_eval i b ++ timestamp post i /\
      timestamp (band_tile_at n T sch) i =
        timestamp pre i ++ (band_eval i outer ++ band_eval i inner) ++ timestamp post i /\
      length (band_eval i outer ++ band_eval i inner) = (2 * length (band_eval i b))%nat /\
      forall j t Tj,
        nth_error (band_eval i b) j = Some t -> nth_error T j = Some Tj ->
        nth_error (band_eval i outer) j = Some (t / Tj) /\
        nth_error (band_eval i inner) j = Some (t mod Tj) /\
        Tj * (t / Tj) <= t < Tj * (t / Tj) + Tj /\
        0 <= t mod Tj < Tj /\
        t = Tj * (t / Tj) + t mod Tj.
Proof.
  intros Hn HT Hpos.
  destruct (band_tile_at_split n T sch b Hn) as (pre & post & Hs & Hl & Ht).
  exists pre, post, (tile_outer b T), (tile_inner b T).
  repeat split; auto using tile_outer_length, tile_inner_length.
  - subst sch. now rewrite timestamp_app, timestamp_cons.
  - rewrite Ht, timestamp_app, !timestamp_cons. now rewrite <- app_assoc.
  - rewrite length_app, !band_eval_length, tile_outer_length, tile_inner_length
      by assumption.
    lia.
  - now apply tile_outer_nth.
  - now apply tile_inner_nth.
  - pose proof (floor_div_bounds t Tj (sizes_positive T j Tj Hpos H0)). lia.
  - pose proof (floor_div_bounds t Tj (sizes_positive T j Tj Hpos H0)). lia.
  - apply Z.mod_pos_bound. eapply sizes_positive; eauto.
  - apply Z.mod_pos_bound. eapply sizes_positive; eauto.
  - pose proof (floor_div_bounds t Tj (sizes_positive T j Tj Hpos H0)). lia.
Qed.

(** * Tiling by one *)

Lemma tile_outer_ones (i : instance) (b : band) (T : list Z) :
  length T = length b -> Forall (fun t => t = 1) T ->
  band_eval i (tile_outer b T) = band_eval i b.
Proof.
  revert T; induction b as [|d b IH]; intros [|t T]; simpl; try discriminate; auto.
  intros Hl HT. inversion HT as [|? ? Ht HT']; subst.
  rewrite Z.div_1_r. f_equal. apply IH; auto.
Qed.

Lemma tile_inner_ones (i : instance) (b : band) (T : list Z) :
  length T = length b -> Forall (fun t => t = 1) T ->
  band_eval i (tile_inner b T) = repeat 0 (length b).
Proof.
  revert T; induction b as [|d b IH]; intros [|t T]; simpl; try discriminate; auto.
  intros Hl HT. inversion HT as [|? ? Ht HT']; subst.
  rewrite Z.mod_1_r. f_equal. apply IH; auto.
Qed.

Lemma tile_ones_same_order (sch : isl_schedule) (n : nat) (b : band) (T : list Z)
    (x y : instance) :
  nth_error sch n = Some b ->
  length T = length b -> Forall (fun t => t = 1) T ->
  lex_compare (timestamp (band_tile_at n T sch) x) (timestamp (band_tile_at n T sch) y)
  = lex_compare (timestamp sch x) (timestamp sch y).
Proof.
  intros Hn Hl HT.
  destruct (band_tile_at_split n T sch b Hn) as (pre & post & -> & _ & ->).
  rewrite !timestamp_app, !timestamp_cons.
  rewrite !tile_outer_ones, !tile_inner_ones by assumption.
  rewrite !lex_compare_app by
    (rewrite ?band_eval_length; auto using timestamp_length).
  destruct (lex_compare (timestamp pre x) (timestamp pre y)); auto.
  destruct (lex_compare (band_eval x b) (band_eval y b)); auto.
  now rewrite lex_compare_refl.
Qed.

Lemma sort_by_ext {A : Type} (leb1 leb2 : A -> A -> bool) (l : list A) :
  (forall x y, leb1 x y = leb2 x y) -> sort_by leb1 l = sort_by leb2 l.
Proof.
  intros Hext. unfold sort_by.
  induction l as [|x l IH]; simpl; [reflexivity|].
  rewrite IH. generalize (fold_right (insert_by leb2) [] l) as s.
  induction s as [|y s IHs]; simpl; [reflexivity|].
  rewrite Hext. destruct (leb2 x y); [reflexivity|]. now rewrite IHs.
Qed.

(** C6. Tiling any band of a schedule with a size vector of all ones
    leaves the execution order of every list of statement instances as
    it was without the tiling. *)
Theorem tiling_by_one_keeps_order (sch : isl_schedule) (n : nat) (b : band)
    (T : list Z) (insts : list instance) :
  nth_error sch n = Some b ->
  length T = length b ->
  Forall (fun t => t = 1) T ->
  execution_order (band_tile_at n T sch) insts = execution_order sch insts.
Proof.
  intros Hn Hl HT. unfold execution_order.
  apply sort_by_ext. intros x y. unfold lex_leb.
  now rewrite (tile_ones_same_order sch n b T x y Hn Hl HT).
Qed.

(** * The dependence computation *)

Lemma dependences_of_In (env : valuation) (stmts : list ScopStmt)
    (ks kt : MemoryKind) (d : dep_edge) :
  In d (dependences_of env stmts ks kt) <->
  In (dep_tgt d) (instances env stmts) /\
  In (dep_elem d) (accessed env stmts kt (dep_tgt d)) /\
  In (dep_src d) (instances env stmts) /\
  touches env stmts ks (dep_src d) (dep_elem d) = true /\
  before stmts (dep_src d) (dep_tgt d) = true /\
  intervening_write env stmts (instances env stmts)
    (dep_src d) (dep_tgt d) (dep_elem d) = false.
Proof.
  unfold dependences_of. rewrite in_flat_map. split.
  - intros (t & Ht & Hd). apply in_flat_map in Hd as (e & He & Hd).
    apply in_flat_map in Hd as (s & Hs & Hd).
    destruct (touches env stmts ks s e) eqn:E1; simpl in Hd; [|contradiction].
    destruct (before stmts s t) eqn:E2; simpl in Hd; [|contradiction].
    destruct (intervening_write env stmts (instances env stmts) s t e) eqn:E3;
      simpl in Hd; [contradiction|].
    destruct Hd as [<-|[]]. simpl. repeat split; assumption.
  - intros (Ht & He & Hs & E1 & E2 & E3). destruct d as [s t e]; simpl in *.
    exists t. split; [assumption|].
    apply in_flat_map. exists e. split; [assumption|].
    apply in_flat_map. exists s. split; [assumption|].
    rewrite E1, E2, E3. simpl. auto.
Qed.

Lemma dependence_edges_In (env : valuation) (stmts : list ScopStmt)
    (kind : dependence_kind) (d : dep_edge) :
  In d (dependence_edges env stmts kind) ->
  In (dep_src d) (instances env stmts) /\
  In (dep_tgt d) (instances env stmts) /\
  before stmts (dep_src d) (dep_tgt d) = true.
Proof.
  destruct kind; simpl; intros Hd; apply dependences_of_In in Hd; tauto.
Qed.

Lemma dependence_before (env : valuation) (stmts : list ScopStmt)
    (kind : dependence_kind) (e : instance * instance) :
  In e (dependence_relation env stmts kind) ->
  before stmts (fst e) (snd e) = true.
Proof.
  unfold dependence_relation. rewrite in_map_iff.
  intros (d & <- & Hd). apply dependence_edges_In in Hd. simpl. tauto.
Qed.

Lemma all_dependences_before (env : valuation) (stmts : list ScopStmt)
    (e : instance * instance) :
  In e (getAllDependences (analyze_model env stmts)) ->
  before stmts (fst e) (snd e) = true.
Proof.
  unfold getAllDependences, isl_union_map_union. simpl.
  rewrite !in_app_iff.
  intros [[H|H]|H]; eapply dependence_before; eauto.
Qed.

(** * Legality *)

Lemma respects_legal (sch : isl_schedule) (e : instance * instance) :
  respects sch e = true <-> legal_edge sch e.
Proof.
  unfold respects, legal_edge.
  destruct (lex_compare (timestamp sch (fst e)) (timestamp sch (snd e))).
  - rewrite bool_decide_eq_true. split; [intros He; right; auto|].
    intros [Hc|[_ He]]; [discriminate|assumption].
  - split; auto.
  - split; [discriminate|]. intros [Hc|[Hc _]]; discriminate.
Qed.

Lemma fulfills_legal (sch : isl_schedule) (deps : isl_union_map) :
  fulfills_dependences sch deps = true <-> legal sch deps.
Proof.
  unfold fulfills_dependences, legal.
  rewrite forallb_forall. split; intros H e He; apply respects_legal; auto.
Qed.

Lemma well_formed_initial_legal (stmts : list ScopStmt) (deps : isl_union_map) :
  well_formed_pair stmts deps -> legal (identity_schedule stmts) deps.
Proof.
  intros Hwf e He. left. specialize (Hwf e He).
  unfold before, lex_ltb in Hwf.
  destruct (lex_compare _ _); congruence.
Qed.

(** * worker.cpp: the schedule optimiser *)

Section OptimizerFacts.
Context {X : Worker.Externals}.

Lemma chooseSchedule_cases (deps : isl_union_map) (S : Worker.Scop) :
  let Current := Worker.buildInitialSchedule S in
  let Tiled := Worker.isl_schedule_node_band_tile Current [32; 32] in
  (Worker.isl_schedule_fulfills_dependences Tiled deps = true /\
   Worker.chooseSchedule deps S = Tiled) \/
  (Worker.isl_schedule_fulfills_dependences Tiled deps = false /\
   Worker.chooseSchedule deps S = Current).
Proof.
  unfold Worker.chooseSchedule. simpl.
  destruct (Worker.isl_schedule_fulfills_dependences _ deps); simpl; auto.
Qed.

Lemma chooseSchedule_fulfills (deps : isl_union_map) (S : Worker.Scop) :
  Worker.isl_schedule_fulfills_dependences (Worker.buildInitialSchedule S) deps
    = true ->
  Worker.isl_schedule_fulfills_dependences (Worker.chooseSchedule deps S) deps
    = true.
Proof.
  intros Hinit.
  destruct (chooseSchedule_cases deps S) as [[Hf ->]|[Hf ->]]; assumption.
Qed.

(** C2. Whatever the tiling, the dependence check and the initial
    schedule are, [optimizeSchedule] ends with a schedule: the tiled one
    when it passes the dependence check, and otherwise exactly the initial
    schedule, nothing of the tiling kept; the rest of the model is
    untouched.  On a pair of model and dependences whose initial schedule
    passes the check, the schedule it ends with passes the check. *)
Theorem rejected_tiling_falls_back (deps : isl_union_map) (S : Worker.Scop) :
  Worker.isl_schedule_fulfills_dependences (Worker.buildInitialSchedule S) deps
    = true ->
  let Current := Worker.buildInitialSchedule S in
  let Tiled := Worker.isl_schedule_node_band_tile Current [32; 32] in
  let S' := Worker.optimizeScheduleWith deps S in
  Worker.getSchedule S' = Some (Worker.chooseSchedule deps S) /\
  Worker.getStmts S' = Worker.getStmts S /\
  Worker.getBasicBlocks S' = Worker.getBasicBlocks S /\
  (Worker.isl_schedule_fulfills_dependences Tiled deps = false ->
     Worker.chooseSchedule deps S = Current) /\
  (Worker.isl_schedule_fulfills_dependences Tiled deps = true ->
     Worker.chooseSchedule deps S = Tiled) /\
  Worker.isl_schedule_fulfills_dependences (Worker.chooseSchedule deps S) deps
    = true.
Proof.
  intros Hinit Current Tiled S'.
  repeat split.
  - intros Hf. destruct (chooseSchedule_cases deps S) as [[Hf' Hc]|[Hf' Hc]];
      [fold Current Tiled in Hf'; congruence|exact Hc].
  - intros Hf. destruct (chooseSchedule_cases deps S) as [[Hf' Hc]|[Hf' Hc]];
      [exact Hc|fold Current Tiled in Hf'; congruence].
  - now apply chooseSchedule_fulfills.
Qed.

End OptimizerFacts.

(** ** With the externals of the design document *)

Lemma computed_pair_well_formed (env : valuation) (stmts : list ScopStmt) :
  well_formed_pair stmts (getAllDependences (analyze_model env stmts)).
Proof. intros e He. eapply all_dependences_before; eauto. Qed.

Lemma computed_pair_initial_fulfills (env : valuation) (stmts : list ScopStmt) :
  fulfills_dependences (identity_schedule stmts)
    (getAllDependences (analyze_model env stmts)) = true.
Proof.
  apply fulfills_legal, well_formed_initial_legal, computed_pair_well_formed.
Qed.





(** * The original execution order is total on the instances of a model *)

Lemma points_from_length (env : valuation) (bs : list (isl_aff * isl_aff))
    (prefix p : list Z) :
  In p (points_from env bs prefix) ->
  length p = (length prefix + length bs)%nat.
Proof.
  revert prefix; induction bs as [|b bs IH]; simpl; intros prefix Hp.
  - destruct Hp as [<-|[]]. lia.
  - apply in_flat_map in Hp as (x & _ & Hp).
    apply IH in Hp. rewrite length_app in Hp. simpl in Hp. lia.
Qed.

Lemma isl_set_points_dim (env : valuation) (s : isl_set) (p : list Z) :
  In p (isl_set_points env s) -> length p = isl_set_dim s.
Proof. intros Hp. apply points_from_length in Hp. exact Hp. Qed.

Lemma instances_from_In (env : valuation) (k : nat) (stmts : list ScopStmt)
    (i : instance) :
  In i (instances_from env k stmts) ->
  exists st, (k <= fst i)%nat /\ nth_error stmts (fst i - k) = Some st /\
             length (snd i) = isl_set_dim (stmt_domain st).
Proof.
  revert k; induction stmts as [|st stmts IH]; simpl; intros k Hi; [contradiction|].
  apply in_app_iff in Hi as [Hi|Hi].
  - apply in_map_iff in Hi as (p & <- & Hp). simpl.
    exists st. rewrite Nat.sub_diag. simpl.
    split; [lia|]. split; [reflexivity|]. now apply isl_set_points_dim in Hp.
  - destruct (IH _ Hi) as (st' & Hk & Hn & Hl).
    exists st'. split; [lia|]. split; [|assumption].
    replace (fst i - k)%nat with (S (fst i - S k)) by lia. exact Hn.
Qed.

Lemma instances_In (env : valuation) (stmts : list ScopStmt) (i : instance) :
  In i (instances env stmts) ->
  exists st, nth_error stmts (fst i) = Some st /\
             length (snd i) = isl_set_dim (stmt_domain st).
Proof.
  intros Hi. apply instances_from_In in Hi as (st & _ & Hn & Hl).
  rewrite Nat.sub_0_r in Hn. eauto.
Qed.

Lemma model_depth_ge (stmts : list ScopStmt) (n : nat) (st : ScopStmt) :
  nth_error stmts n = Some st ->
  (isl_set_dim (stmt_domain st) <= model_depth stmts)%nat.
Proof.
  revert n; induction stmts as [|st0 stmts IH]; intros [|n]; simpl; try discriminate.
  - intros [= ->]. lia.
  - intros Hn. apply IH in Hn. lia.
Qed.

Lemma identity_timestamp (stmts : list ScopStmt) (i : instance) :
  timestamp (identity_schedule stmts) i =
  map (fun k => nth k (snd i) 0) (seq 0 (model_depth stmts)) ++ [Z.of_nat (fst i)].
Proof.
  unfold timestamp, identity_schedule, band_eval. simpl.
  rewrite map_map. reflexivity.
Qed.

Lemma padded_vector_inj (d : nat) (v w : list Z) :
  length v = length w -> (length v <= d)%nat ->
  map (fun k => nth k v 0) (seq 0 d) = map (fun k => nth k w 0) (seq 0 d) ->
  v = w.
Proof.
  intros Hl Hd Hm.
  apply (nth_ext v w 0 0 Hl). intros n Hn.
  assert (Hin : In n (seq 0 d)) by (apply in_seq; lia).
  exact (proj1 map_ext_in_iff Hm n Hin).
Qed.

Lemma identity_timestamp_inj (env : valuation) (stmts : list ScopStmt)
    (a b : instance) :
  In a (instances env stmts) -> In b (instances env stmts) ->
  timestamp (identity_schedule stmts) a = timestamp (identity_schedule stmts) b ->
  a = b.
Proof.
  intros Ha Hb Ht. rewrite !identity_timestamp in Ht.
  apply app_inj_tail in Ht as [Hv Hs].
  apply Nat2Z.inj in Hs.
  destruct (instances_In _ _ _ Ha) as (sa & Hna & Hla).
  destruct (instances_In _ _ _ Hb) as (sb & Hnb & Hlb).
  rewrite Hs in Hna. rewrite Hna in Hnb. injection Hnb as <-.
  destruct a as [ka va], b as [kb vb]; simpl in *. subst kb. f_equal.
  apply (padded_vector_inj (model_depth stmts)); [congruence| |assumption].
  rewrite Hla. eapply model_depth_ge; eauto.
Qed.

Lemma before_total (env : valuation) (stmts : list ScopStmt) (a b : instance) :
  In a (instances env stmts) -> In b (instances env stmts) ->
  a <> b -> before stmts a b = true \/ before stmts b a = true.
Proof.
  intros Ha Hb Hne. unfold before, lex_ltb.
  rewrite (lex_compare_antisym (timestamp (identity_schedule stmts) a)
             (timestamp (identity_schedule stmts) b)).
  destruct (lex_compare (timestamp (identity_schedule stmts) a)
              (timestamp (identity_schedule stmts) b)) eqn:E; simpl; auto.
  apply lex_compare_eq in E. exfalso. apply Hne.
  eapply identity_timestamp_inj; eauto.
Qed.

(** * The scenarios of the design document *)

(** Two statements over a 4 x 4 domain: the RAW relation is
    [S0[i,j] -> S1[i,j]], sixteen edges, and tiling by (2, 2) is legal. *)
Example scenario_two_statements_raw :
  dependence_relation Samples.params4 [Samples.initC; Samples.accumC]
    ISL_DEPENDENCE_RAW
  = map (fun p => ((0%nat, p), (1%nat, p)))
        (isl_set_points Samples.params4 Samples.box) /\
  length (isl_set_points Samples.params4 Samples.box) = 16%nat.
Proof. split; vm_compute; reflexivity. Qed.

Example scenario_two_statements_tiled :
  tile_root_band
    (identity_schedule [Samples.initC; Samples.accumC]) [2; 2]
  = [[SFloor (SIter 0) 2; SFloor (SIter 1) 2];
     [SMod (SIter 0) 2; SMod (SIter 1) 2]; [SSeq]] /\
  fulfills_dependences
    (tile_root_band
       (identity_schedule [Samples.initC; Samples.accumC]) [2; 2])
    (getAllDependences
       (analyze_model Samples.params4 [Samples.initC; Samples.accumC]))
  = true.
Proof. split; vm_compute; reflexivity. Qed.

(** The running sum: each instance depends on the one before it, and
    tiling the loop keeps the carried order. *)
Example scenario_running_sum :
  dependence_relation Samples.params4 [Samples.prefixSum] ISL_DEPENDENCE_RAW
  = map (fun i => ((0%nat, [i]), (0%nat, [i + 1]))) (Zrange 1 9) /\
  fulfills_dependences
    (tile_root_band (identity_schedule [Samples.prefixSum]) [4])
    (getAllDependences (analyze_model Samples.params4 [Samples.prefixSum]))
  = true.
Proof. split; vm_compute; reflexivity. Qed.

(** * Last writes *)

Lemma accessed_touches (env : valuation) (stmts : list ScopStmt)
    (k : MemoryKind) (i : instance) (e : element) :
  In e (accessed env stmts k i) <-> touches env stmts k i e = true.
Proof.
  unfold touches. rewrite existsb_exists. split.
  - intros He. exists e. split; [assumption|]. now apply bool_decide_eq_true.
  - intros (e' & He' & Heq). apply bool_decide_eq_true in Heq. now subst.
Qed.

Lemma no_intervening_write (env : valuation) (stmts : list ScopStmt)
    (insts : list instance) (s t w : instance) (e : element) :
  intervening_write env stmts insts s t e = false ->
  In w insts -> touches env stmts MK_WRITE w e = true ->
  before stmts w t = true -> before stmts s w = false.
Proof.
  unfold intervening_write. intros Hno Hw Htw Hwt.
  destruct (before stmts s w) eqn:Hsw; [|reflexivity].
  assert (Hex : existsb (fun w => touches env stmts MK_WRITE w e
                          && before stmts s w && before stmts w t) insts = true).
  { apply existsb_exists. exists w. split; [assumption|].
    now rewrite Htw, Hsw, Hwt. }
  congruence.
Qed.

(** C3. Every edge of the computed RAW relation goes from a write of an
    array element to a later read of that element, no write of the element
    executes after the source and before the read (the source is the last
    write), and no other edge of the relation reaches the same read
    instance through the same element from a different source. *)
Theorem raw_keeps_only_the_last_write (env : valuation) (stmts : list ScopStmt)
    (d : dep_edge) :
  In d (dependence_edges env stmts ISL_DEPENDENCE_RAW) ->
  touches env stmts MK_WRITE (dep_src d) (dep_elem d) = true /\
  touches env stmts MK_READ (dep_tgt d) (dep_elem d) = true /\
  before stmts (dep_src d) (dep_tgt d) = true /\
  (forall w, In w (instances env stmts) ->
     touches env stmts MK_WRITE w (dep_elem d) = true ->
     before stmts w (dep_tgt d) = true ->
     before stmts (dep_src d) w = false) /\
  (forall d', In d' (dependence_edges env stmts ISL_DEPENDENCE_RAW) ->
     dep_tgt d' = dep_tgt d -> dep_elem d' = dep_elem d ->
     dep_src d' = dep_src d).
Proof.
  simpl. intros Hd.
  apply dependences_of_In in Hd as (Ht & He & Hs & Hw & Hb & Hno).
  assert (Hlast : forall w, In w (instances env stmts) ->
            touches env stmts MK_WRITE w (dep_elem d) = true ->
            before stmts w (dep_tgt d) = true ->
            before stmts (dep_src d) w = false).
  { intros w. now apply no_intervening_write. }
  repeat split; try assumption.
  - now apply accessed_touches.
  - intros d' Hd' Htgt Helem.
    apply dependences_of_In in Hd' as (Ht' & He' & Hs' & Hw' & Hb' & Hno').
    rewrite Htgt, Helem in *.
    destruct (decide (dep_src d' = dep_src d)) as [|Hne]; [assumption|].
    exfalso.
    destruct (before_total env stmts _ _ Hs' Hs Hne) as [Hlt|Hlt].
    + pose proof (no_intervening_write _ _ _ _ _ _ _ Hno' Hs Hw Hb). congruence.
    + pose proof (Hlast _ Hs' Hw' Hb'). congruence.
Qed.

Lemma before_irrefl (stmts : list ScopStmt) (a : instance) :
  before stmts a a = false.
Proof. unfold before, lex_ltb. now rewrite lex_compare_refl. Qed.

Lemma before_trans (stmts : list ScopStmt) (a b c : instance) :
  before stmts a b = true -> before stmts b c = true -> before stmts a c = true.
Proof.
  unfold before, lex_ltb. intros Hab Hbc.
  destruct (lex_compare (timestamp (identity_schedule stmts) a)
              (timestamp (identity_schedule stmts) b)) eqn:E1; try discriminate.
  destruct (lex_compare (timestamp (identity_schedule stmts) b)
              (timestamp (identity_schedule stmts) c)) eqn:E2; try discriminate.
  now rewrite (lex_compare_trans _ _ _ E1 E2).
Qed.

(** A non-empty list of instances has a latest one. *)
Lemma latest_instance (stmts : list ScopStmt) (l : list instance) :
  l <> [] ->
  exists m, In m l /\ forall x, In x l -> before stmts m x = false.
Proof.
  induction l as [|a l IH]; [congruence|]. intros _.
  destruct l as [|b l].
  - exists a. split; [now left|]. intros x [<-|[]]. apply before_irrefl.
  - destruct IH as (m & Hm & Hmax); [discriminate|].
    destruct (before stmts m a) eqn:Hma.
    + exists a. split; [now left|]. intros x [<-|Hx]; [apply before_irrefl|].
      destruct (before stmts a x) eqn:Hax; [|reflexivity].
      rewrite <- (Hmax x Hx). symmetry. eapply before_trans; eauto.
    + exists m. split; [now right|]. intros x [<-|Hx]; auto.
Qed.

(** Whenever some write of an element precedes a read of it, the RAW
    relation has an edge into that read through that element. *)
Lemma raw_edge_exists (env : valuation) (stmts : list ScopStmt)
    (t w : instance) (e : element) :
  In t (instances env stmts) -> In e (accessed env stmts MK_READ t) ->
  In w (instances env stmts) -> touches env stmts MK_WRITE w e = true ->
  before stmts w t = true ->
  exists s, In (mk_edge s t e) (dependence_edges env stmts ISL_DEPENDENCE_RAW).
Proof.
  intros Ht He Hw Hwe Hwt.
  set (cand := List.filter
                 (fun x => touches env stmts MK_WRITE x e && before stmts x t)
                 (instances env stmts)).
  assert (Hin : In w cand).
  { apply filter_In. split; [assumption|]. now rewrite Hwe, Hwt. }
  destruct (latest_instance stmts cand) as (m & Hm & Hmax).
  { intros Hnil. rewrite Hnil in Hin. contradiction. }
  apply filter_In in Hm as [Hmi Hmc]. apply andb_true_iff in Hmc as [Hme Hmt].
  exists m. simpl. apply dependences_of_In. simpl.
  repeat split; try assumption.
  unfold intervening_write.
  destruct (existsb _ (instances env stmts)) eqn:Hex; [|reflexivity].
  apply existsb_exists in Hex as (x & Hx & Hc).
  apply andb_true_iff in Hc as [Hc Hxt]. apply andb_true_iff in Hc as [Hxe Hmx].
  assert (Hxc : In x cand).
  { apply filter_In. split; [assumption|]. now rewrite Hxe, Hxt. }
  rewrite (Hmax x Hxc) in Hmx. discriminate.
Qed.

(** * worker.cpp: model construction *)

Section BuilderFacts.
Context {R : Worker.Readers}.

Lemma liftInstruction_stmts (Inst : Instruction) (S : Worker.Scop) :
  Worker.getStmts (Worker.liftInstruction Inst S) =
    Worker.getStmts S
      ++ (if isa_StoreInst Inst then [Worker.storeStmt Inst] else []) /\
  Worker.getBasicBlocks (Worker.liftInstruction Inst S) = Worker.getBasicBlocks S /\
  Worker.getSchedule (Worker.liftInstruction Inst S) = Worker.getSchedule S.
Proof.
  unfold Worker.liftInstruction.
  destruct (isa_StoreInst Inst); simpl.
  - split; [|split; reflexivity].
    rewrite !alter_app_r_alt by (rewrite ?length_app; simpl; lia).
    rewrite Nat.sub_diag. reflexivity.
  - now rewrite app_nil_r.
Qed.

Lemma liftBlock_stmts (BB : BasicBlock) (S : Worker.Scop) :
  let S' := fold_left (fun S Inst => Worker.liftInstruction Inst S) BB S in
  Worker.getStmts S' =
    Worker.getStmts S ++ map Worker.storeStmt (List.filter isa_StoreInst BB) /\
  Worker.getBasicBlocks S' = Worker.getBasicBlocks S /\
  Worker.getSchedule S' = Worker.getSchedule S.
Proof.
  revert S; induction BB as [|Inst BB IH]; intros S; simpl.
  - now rewrite app_nil_r.
  - destruct (IH (Worker.liftInstruction Inst S)) as (Hs & Hb & Hc).
    destruct (liftInstruction_stmts Inst S) as (Hs1 & Hb1 & Hc1).
    rewrite Hs, Hb, Hc, Hs1, Hb1, Hc1. split; [|split; reflexivity].
    rewrite <- app_assoc. destruct (isa_StoreInst Inst); reflexivity.
Qed.

Lemma liftBlocks_stmts (blocks : list BasicBlock) (S : Worker.Scop) :
  let S' := fold_left
              (fun S StmtBB =>
                 fold_left (fun S Inst => Worker.liftInstruction Inst S) StmtBB S)
              blocks S in
  Worker.getStmts S' =
    Worker.getStmts S
      ++ map Worker.storeStmt (List.filter isa_StoreInst (concat blocks)) /\
  Worker.getBasicBlocks S' = Worker.getBasicBlocks S /\
  Worker.getSchedule S' = Worker.getSchedule S.
Proof.
  revert S; induction blocks as [|BB blocks IH]; intros S; simpl.
  - now rewrite app_nil_r.
  - destruct (IH (fold_left (fun S Inst => Worker.liftInstruction Inst S) BB S))
      as (Hs & Hb & Hc).
    destruct (liftBlock_stmts BB S) as (Hs1 & Hb1 & Hc1).
    rewrite Hs, Hb, Hc, Hs1, Hb1, Hc1. split; [|split; reflexivity].
    now rewrite List.filter_app, map_app, app_assoc.
Qed.

Lemma buildScop_fields (S : Worker.Scop) :
  Worker.getStmts (Worker.buildScop S) =
    Worker.getStmts S
      ++ map Worker.storeStmt
           (List.filter isa_StoreInst (concat (Worker.getBasicBlocks S))) /\
  Worker.getBasicBlocks (Worker.buildScop S) = Worker.getBasicBlocks S /\
  Worker.getSchedule (Worker.buildScop S) = Worker.getSchedule S.
Proof. exact (liftBlocks_stmts (Worker.getBasicBlocks S) S). Qed.

Lemma storeStmt_shape (blocks : list BasicBlock) (Inst : Instruction) :
  In Inst (List.filter isa_StoreInst (concat blocks)) ->
  Worker.lifted_from_store blocks (Worker.storeStmt Inst).
Proof.
  intros Hin. apply filter_In in Hin as [Hin Hst].
  exists Inst. repeat split; auto.
  unfold isa_StoreInst in Hst. destruct (inst_opcode Inst); congruence.
Qed.

Lemma storeStmt_two_dimensional (Inst : Instruction) :
  Worker.two_dimensional (Worker.storeStmt Inst) <-> Worker.reads_two_dimensional.
Proof.
  unfold Worker.two_dimensional, Worker.reads_two_dimensional. simpl. split.
  - intros (HD & HA).
    inversion HA as [|? ? HW HA']; subst. inversion HA' as [|? ? HR _]; subst.
    auto.
  - intros (HD & HW & HR). split; [exact HD|]. repeat constructor; assumption.
Qed.

(** C9. [buildScop] appends to the model one statement per store
    instruction of its blocks, in block and instruction order, and nothing
    for any other instruction (loads included); every statement it adds is
    named after its store and carries exactly two accesses, a write access
    followed by a read access: what the reader returns for the texts
    [{ [i,j] -> C[i,j] }] and [{ [i,j] -> A[i,j] }].  The domain of the
    statement is what the reader returns for the text
    [{ [i,j] : 0 <= i < N and 0 <= j < M }].  Accesses and domain share a
    two-dimensional source exactly when the reader returns
    two-dimensional objects for the three texts; a reader that rejects
    the domain text, which uses [N] and [M] without declaring them, leaves
    every statement without a domain.  Starting from a model without
    statements, the statements added are all the statements of the
    model. *)
Theorem buildScop_statements_lack_a_domain (S : Worker.Scop) :
  let blocks := Worker.getBasicBlocks S in
  exists added,
    Worker.getStmts (Worker.buildScop S) = Worker.getStmts S ++ added /\
    added = map Worker.storeStmt (List.filter isa_StoreInst (concat blocks)) /\
    Forall (fun st =>
              Worker.lifted_from_store blocks st /\
              Worker.stmt_accesses st =
                [(MK_WRITE, Worker.isl_map_read_from_str "{ [i,j] -> C[i,j] }");
                 (MK_READ, Worker.isl_map_read_from_str "{ [i,j] -> A[i,j] }")] /\
              Worker.stmt_domain st =
                Worker.isl_set_read_from_str "{ [i,j] : 0 <= i < N and 0 <= j < M }" /\
              (Worker.two_dimensional st <-> Worker.reads_two_dimensional))
           added /\
    (Worker.isl_set_read_from_str "{ [i,j] : 0 <= i < N and 0 <= j < M }" = None ->
     Forall (fun st => Worker.stmt_domain st = None /\ ~ Worker.two_dimensional st)
            added) /\
    (Worker.getStmts S = [] -> Worker.getStmts (Worker.buildScop S) = added).
Proof.
  intros blocks.
  destruct (buildScop_fields S) as (Hs & _ & _). fold blocks in Hs.
  eexists. split; [exact Hs|]. split; [reflexivity|].
  split; [|split; [|intros Hnil; now rewrite Hs, Hnil]].
  - apply List.Forall_forall. intros st Hst.
    apply in_map_iff in Hst as (Inst & <- & Hin).
    split; [now apply storeStmt_shape|]. split; [reflexivity|].
    split; [reflexivity|]. apply storeStmt_two_dimensional.
  - intros Hnull. apply List.Forall_forall. intros st Hst.
    apply in_map_iff in Hst as (Inst & <- & Hin).
    assert (Hdom : Worker.stmt_domain (Worker.storeStmt Inst) = None)
      by exact Hnull.
    split; [exact Hdom|].
    intros [(D & HD & _) _]. congruence.
Qed.

End BuilderFacts.

(** * worker2.cpp: the passes *)
Section PassFacts.
Context {H : Worker2.Helpers}.
Import Worker2.

Lemma firstAffineLoop_Some (LI : list Loop) (R : ScopDetectionResult) :
  firstAffineLoop LI = Some R ->
  exists pre L post,
    LI = pre ++ L :: post /\
    Forall (fun L' => isAffineLoop L' = false) pre /\
    isAffineLoop L = true /\ R = mk_result [L].
Proof.
  induction LI as [|L LI IH]; simpl; [discriminate|].
  destruct (isAffineLoop L) eqn:E.
  - intros [= <-]. exists [], L, LI. repeat split; auto.
  - intros HR. destruct (IH HR) as (pre & L' & post & -> & Hpre & HL & ->).
    exists (L :: pre), L', post. repeat split; auto.
Qed.

Lemma firstAffineLoop_first (pre post : list Loop) (L : Loop) :
  Forall (fun L' => isAffineLoop L' = false) pre ->
  isAffineLoop L = true ->
  firstAffineLoop (pre ++ L :: post) = Some (mk_result [L]).
Proof.
  intros Hpre HL. induction Hpre as [|L' pre HL' Hpre IH]; simpl.
  - now rewrite HL.
  - now rewrite HL'.
Qed.

Lemma firstAffineLoop_None (LI : list Loop) :
  firstAffineLoop LI = None <-> Forall (fun L => isAffineLoop L = false) LI.
Proof.
  induction LI as [|L LI IH]; simpl.
  - split; auto.
  - destruct (isAffineLoop L) eqn:E.
    + split; [discriminate|]. intros HF. inversion HF; congruence.
    + rewrite IH. split; [intros HF; constructor; assumption|].
      intros HF. now inversion HF.
Qed.

(** C8. [ScopDetectionPass::run] returns no result exactly when the
    function is not eligible or none of its loops is affine; otherwise the
    result holds exactly one loop, the first affine loop of the function's
    loop list, whatever loops come after it. *)
Theorem detection_returns_first_affine_loop (F : Function) :
  (ScopDetectionPass_run F = None <->
     isEligibleForScop F = false \/
     Forall (fun L => isAffineLoop L = false) (fn_loops F)) /\
  (forall R, ScopDetectionPass_run F = Some R ->
     isEligibleForScop F = true /\
     exists pre L post,
       fn_loops F = pre ++ L :: post /\
       Forall (fun L' => isAffineLoop L' = false) pre /\
       isAffineLoop L = true /\ getLoops R = [L]) /\
  (forall pre L post,
     isEligibleForScop F = true ->
     fn_loops F = pre ++ L :: post ->
     Forall (fun L' => isAffineLoop L' = false) pre ->
     isAffineLoop L = true ->
     ScopDetectionPass_run F = Some (mk_result [L])).
Proof.
  unfold ScopDetectionPass_run. split; [|split].
  - destruct (isEligibleForScop F); simpl.
    + rewrite firstAffineLoop_None. split; auto.
      intros [Hf|Hf]; [discriminate|assumption].
    + split; auto.
  - intros R. destruct (isEligibleForScop F); simpl; [|discriminate].
    intros HR. split; [reflexivity|].
    destruct (firstAffineLoop_Some _ _ HR) as (pre & L & post & Hl & Hpre & HL & ->).
    exists pre, L, post. auto.
  - intros pre L post -> -> Hpre HL. simpl. now apply firstAffineLoop_first.
Qed.

(** C10. Without a detection result [BuildScopPass::run] returns the
    function as it received it and reports all analyses preserved; so do
    [OptimizeSchedulePass::run] and [CodeGenPass::run] on a function that
    carries no SCoP metadata. *)
Theorem passes_without_scop_are_noops (F : Function) :
  (ScopDetectionPass_run F = None ->
     BuildScopPass_run F = (PreservedAnalyses_all, F)) /\
  (getScopFromMetadata F = None ->
     OptimizeSchedulePass_run F = (PreservedAnalyses_all, F) /\
     CodeGenPass_run F = (PreservedAnalyses_all, F)).
Proof.
  split.
  - intros Hd. unfold BuildScopPass_run. now rewrite Hd.
  - intros Hs. unfold OptimizeSchedulePass_run, CodeGenPass_run.
    now rewrite Hs.
Qed.

(** ** Model construction *)

Lemma collectBlock_spec (Ctx : isl_ctx) (BB : BasicBlock) (S : Scop) :
  let S' := fold_left (collectAccess Ctx) BB S in
  getAccesses S' =
    getAccesses S ++ map (accessOf Ctx) (List.filter isMemoryInst BB) /\
  getDomain S' = getDomain S.
Proof.
  revert S; induction BB as [|I BB IH]; intros S; simpl.
  - now rewrite app_nil_r.
  - destruct (IH (collectAccess Ctx S I)) as (Ha & Hd). rewrite Ha, Hd.
    unfold collectAccess, isMemoryInst.
    destruct (isa_StoreInst I || isa_LoadInst I); simpl; [|auto].
    now rewrite <- app_assoc.
Qed.

Lemma collectBlocks_spec (Ctx : isl_ctx) (blocks : list BasicBlock) (S : Scop) :
  let S' := fold_left (fun S BB => fold_left (collectAccess Ctx) BB S) blocks S in
  getAccesses S' =
    getAccesses S ++ map (accessOf Ctx) (List.filter isMemoryInst (concat blocks)) /\
  getDomain S' = getDomain S.
Proof.
  revert S; induction blocks as [|BB blocks IH]; intros S; simpl.
  - now rewrite app_nil_r.
  - destruct (IH (fold_left (collectAccess Ctx) BB S)) as (Ha & Hd).
    destruct (collectBlock_spec Ctx BB S) as (Ha1 & Hd1).
    rewrite Ha, Hd, Ha1, Hd1. split; [|reflexivity].
    now rewrite List.filter_app, map_app, app_assoc.
Qed.

Lemma collectLoops_spec (Ctx : isl_ctx) (loops : list Loop) (S : Scop) :
  let S' := fold_left (collectLoop Ctx) loops S in
  getDomain S' = getDomain S ++ map (fun L => extractLoopDomain L Ctx) loops /\
  getAccesses S' =
    getAccesses S
      ++ flat_map (fun L => map (accessOf Ctx)
                              (List.filter isMemoryInst (concat (getBlocks L))))
                  loops.
Proof.
  revert S; induction loops as [|L loops IH]; intros S; simpl.
  - now rewrite !app_nil_r.
  - destruct (IH (collectLoop Ctx S L)) as (Hd & Ha). rewrite Hd, Ha.
    unfold collectLoop.
    destruct (collectBlocks_spec Ctx (getBlocks L)
                (addDomain (extractLoopDomain L Ctx) S)) as (Ha1 & Hd1).
    rewrite Ha1, Hd1. simpl. now rewrite <- !app_assoc.
Qed.

Lemma getScop_setMetadata (S : Scop) (F : Function) :
  getScopFromMetadata (setMetadata "polly.scop" (getAsMDNode S) F) = Some S.
Proof.
  unfold getScopFromMetadata, setMetadata. simpl.
  now rewrite lookup_insert_eq.
Qed.

(** [DependenceAnalysisPass::run] returns the union of the three computed
    relations of the model stored in the function. *)
Lemma DependenceAnalysisPass_collects (F : Function) (scop : Scop) :
  getScopFromMetadata F = Some scop ->
  depinfo_map (DependenceAnalysisPass_run F)
  = isl_dependence_from_scop (getIslScop scop) ISL_DEPENDENCE_RAW
    ++ isl_dependence_from_scop (getIslScop scop) ISL_DEPENDENCE_WAW
    ++ isl_dependence_from_scop (getIslScop scop) ISL_DEPENDENCE_WAR.
Proof.
  intros HF. unfold DependenceAnalysisPass_run. rewrite HF.
  unfold isl_union_map_union, isl_union_map_empty. simpl.
  now rewrite <- app_assoc.
Qed.

(** ** Schedule synthesis *)

Lemma OptimizeSchedulePass_scop (F : Function) (scop : Scop) :
  getScopFromMetadata F = Some scop ->
  getScopFromMetadata (snd (OptimizeSchedulePass_run F)) = Some (optimizeScop scop).
Proof.
  intros HF. unfold OptimizeSchedulePass_run. rewrite HF. simpl.
  apply getScop_setMetadata.
Qed.

End PassFacts.

(** * The model of the design document: construction *)
























(** ** A domain that is not a finite union of affine polyhedra *)





(** * The theorems at sample inputs *)

(** C4 on the initial schedule of the two-statement model, sizes 32 x 32. *)
Lemma tiling_rewrites_band_witness :
  nth_error (identity_schedule [Samples.initC; Samples.accumC]) 0
    = Some [SIter 0; SIter 1] /\
  length [32; 32] = length [SIter 0; SIter 1] /\
  Forall (fun t => 0 < t) [32; 32] /\
  exists pre post outer inner,
    identity_schedule [Samples.initC; Samples.accumC]
      = pre ++ [SIter 0; SIter 1] :: post /\
    band_tile_at 0 [32; 32] (identity_schedule [Samples.initC; Samples.accumC])
      = pre ++ outer :: inner :: post /\
    length outer = 2%nat /\ length inner = 2%nat.
Proof.
  assert (H1 : nth_error (identity_schedule [Samples.initC; Samples.accumC]) 0
               = Some [SIter 0; SIter 1]) by reflexivity.
  assert (H2 : length [32; 32] = length [SIter 0; SIter 1]) by reflexivity.
  assert (H3 : Forall (fun t => 0 < t) [32; 32]) by (repeat constructor).
  split; [exact H1|]. split; [exact H2|]. split; [exact H3|].
  destruct (tiling_rewrites_band _ 0%nat _ _ H1 H2 H3)
    as (pre & post & outer & inner & Hs & _ & Ht & Ho & Hi & _).
  exists pre, post, outer, inner. auto.
Defined.


Section SampleOptimizer.
#[local] Existing Instance Samples.sampleReaders.
#[local] Existing Instance Samples.sampleExternals.

(** C2 on a dependence the 32 x 32 tiling breaks: the initial schedule
    is kept. *)
Lemma rejected_tiling_falls_back_witness :
  Worker.isl_schedule_fulfills_dependences
    (Worker.buildInitialSchedule (Worker.buildScop Samples.scopA))
    Samples.skewed = true /\
  Worker.isl_schedule_fulfills_dependences
    (Worker.isl_schedule_node_band_tile
       (Worker.buildInitialSchedule (Worker.buildScop Samples.scopA)) [32; 32])
    Samples.skewed = false /\
  Worker.chooseSchedule Samples.skewed (Worker.buildScop Samples.scopA)
    = Worker.buildInitialSchedule (Worker.buildScop Samples.scopA) /\
  Worker.isl_schedule_fulfills_dependences
    (Worker.chooseSchedule Samples.skewed (Worker.buildScop Samples.scopA))
    Samples.skewed = true.
Proof.
  assert (Hinit : Worker.isl_schedule_fulfills_dependences
                    (Worker.buildInitialSchedule (Worker.buildScop Samples.scopA))
                    Samples.skewed = true) by (vm_compute; reflexivity).
  assert (Hrej : Worker.isl_schedule_fulfills_dependences
                   (Worker.isl_schedule_node_band_tile
                      (Worker.buildInitialSchedule (Worker.buildScop Samples.scopA))
                      [32; 32])
                   Samples.skewed = false) by (vm_compute; reflexivity).
  destruct (rejected_tiling_falls_back Samples.skewed
              (Worker.buildScop Samples.scopA) Hinit)
    as (_ & _ & _ & Hfall & _ & Hlegal).
  split; [exact Hinit|]. split; [exact Hrej|].
  split; [exact (Hfall Hrej)|exact Hlegal].
Defined.

End SampleOptimizer.

(** C3 on the edge [S0[0,0] -> S1[0,0]] through [C[0,0]]. *)
Lemma raw_keeps_only_the_last_write_witness :
  In Samples.flowEdge
     (dependence_edges Samples.params4 [Samples.initC; Samples.accumC]
        ISL_DEPENDENCE_RAW) /\
  forall d',
    In d' (dependence_edges Samples.params4 [Samples.initC; Samples.accumC]
             ISL_DEPENDENCE_RAW) ->
    dep_tgt d' = dep_tgt Samples.flowEdge ->
    dep_elem d' = dep_elem Samples.flowEdge ->
    dep_src d' = (0%nat, [0; 0]).
Proof.
  assert (Hin : In Samples.flowEdge
                   (dependence_edges Samples.params4
                      [Samples.initC; Samples.accumC] ISL_DEPENDENCE_RAW)).
  { vm_compute. left. reflexivity. }
  split; [exact Hin|].
  destruct (raw_keeps_only_the_last_write Samples.params4
              [Samples.initC; Samples.accumC] Samples.flowEdge Hin)
    as (_ & _ & _ & _ & Huniq).
  exact Huniq.
Defined.

(** C6 on the 32 instances of the two-statement model. *)
Lemma tiling_by_one_keeps_order_witness :
  nth_error (identity_schedule [Samples.initC; Samples.accumC]) 0
    = Some [SIter 0; SIter 1] /\
  length [1; 1] = length [SIter 0; SIter 1] /\
  Forall (fun t => t = 1) [1; 1] /\
  execution_order
    (band_tile_at 0 [1; 1] (identity_schedule [Samples.initC; Samples.accumC]))
    (instances Samples.params4 [Samples.initC; Samples.accumC])
  = execution_order
      (identity_schedule [Samples.initC; Samples.accumC])
      (instances Samples.params4 [Samples.initC; Samples.accumC]).
Proof.
  assert (H1 : nth_error (identity_schedule [Samples.initC; Samples.accumC]) 0
               = Some [SIter 0; SIter 1]) by reflexivity.
  assert (H2 : length [1; 1] = length [SIter 0; SIter 1]) by reflexivity.
  assert (H3 : Forall (fun t => t = 1) [1; 1]) by (repeat constructor).
  split; [exact H1|]. split; [exact H2|]. split; [exact H3|].
  exact (tiling_by_one_keeps_order _ 0%nat _ _ _ H1 H2 H3).
Defined.

(** C9 on the model [detectScops] sets up for [loopA], with a reader
    that rejects the domain text: the two stores become the two
    statements, each with its two accesses and without a domain. *)
Lemma buildScop_statements_lack_a_domain_witness :
  @Worker.isl_set_read_from_str Samples.strictReaders
    "{ [i,j] : 0 <= i < N and 0 <= j < M }" = None /\
  Worker.getStmts (@Worker.buildScop Samples.strictReaders Samples.scopA)
  = [Worker.mk_stmt (isl_id_alloc "Stmt" 1) None
       [(MK_WRITE, Some (mk_map 2 "C" [aff_var 0; aff_var 1]));
        (MK_READ, Some (mk_map 2 "A" [aff_var 0; aff_var 1]))];
     Worker.mk_stmt (isl_id_alloc "Stmt" 4) None
       [(MK_WRITE, Some (mk_map 2 "C" [aff_var 0; aff_var 1]));
        (MK_READ, Some (mk_map 2 "A" [aff_var 0; aff_var 1]))]] /\
  Forall (fun st => Worker.stmt_domain st = None /\ ~ Worker.two_dimensional st)
         (Worker.getStmts (@Worker.buildScop Samples.strictReaders Samples.scopA)).
Proof.
  assert (Hnull : @Worker.isl_set_read_from_str Samples.strictReaders
                    "{ [i,j] : 0 <= i < N and 0 <= j < M }" = None)
    by reflexivity.
  destruct (@buildScop_statements_lack_a_domain Samples.strictReaders
              Samples.scopA)
    as (added & Hs & Ha & _ & Hall & _).
  split; [exact Hnull|]. split; [reflexivity|].
  rewrite Hs. exact (Hall Hnull).
Defined.

Section SampleRuns.
#[local] Existing Instance Samples.sampleExternals.
#[local] Existing Instance Samples.sampleHelpers.
Import Worker2.

(** C8 on [fnA]: the second loop is the first affine one, the third is
    affine too and is left out. *)
Lemma detection_returns_first_affine_loop_witness :
  ScopDetectionPass_run Samples.fnA = Some (mk_result [Samples.loopA]) /\
  (ScopDetectionPass_run Samples.fnEmpty = None <->
     isEligibleForScop Samples.fnEmpty = false \/
     Forall (fun L => isAffineLoop L = false) (fn_loops Samples.fnEmpty)).
Proof.
  destruct (detection_returns_first_affine_loop Samples.fnA) as (_ & _ & Hfirst).
  destruct (detection_returns_first_affine_loop Samples.fnEmpty) as (Hnone & _).
  split; [|exact Hnone].
  apply (Hfirst [Samples.loopB] Samples.loopA [Samples.loopC]).
  - reflexivity.
  - reflexivity.
  - repeat constructor.
  - reflexivity.
Defined.

(** C10 on a function that is not eligible and carries no metadata. *)
Lemma passes_without_scop_are_noops_witness :
  ScopDetectionPass_run Samples.fnEmpty = None /\
  getScopFromMetadata Samples.fnEmpty = None /\
  BuildScopPass_run Samples.fnEmpty = (PreservedAnalyses_all, Samples.fnEmpty) /\
  OptimizeSchedulePass_run Samples.fnEmpty = (PreservedAnalyses_all, Samples.fnEmpty) /\
  CodeGenPass_run Samples.fnEmpty = (PreservedAnalyses_all, Samples.fnEmpty).
Proof.
  assert (Hd : ScopDetectionPass_run Samples.fnEmpty = None) by reflexivity.
  assert (Hs : getScopFromMetadata Samples.fnEmpty = None) by reflexivity.
  destruct (passes_without_scop_are_noops Samples.fnEmpty) as (Hb & Hoc).
  destruct (Hoc Hs) as (Ho & Hc).
  split; [exact Hd|]. split; [exact Hs|]. split; [exact (Hb Hd)|].
  split; [exact Ho|exact Hc].
Defined.

End SampleRuns.


(** * Further properties of worker.cpp *)

Lemma detectScops_filter (isScop : Loop -> bool) (Loops : list Loop) :
  Worker.detectScops isScop Loops =
  map (fun L => Worker.mk_scop [getHeader L; getLoopBody L] [] None)
      (List.filter isScop Loops).
Proof.
  unfold Worker.detectScops.
  induction Loops as [|L Loops IH]; simpl; [reflexivity|].
  destruct (isScop L); simpl; now rewrite IH.
Qed.

Lemma filter_nil_Forall {A : Type} (f : A -> bool) (l : list A) :
  List.filter f l = [] <-> Forall (fun x => f x = false) l.
Proof.
  induction l as [|x l IH]; simpl.
  - split; auto.
  - destruct (f x) eqn:E.
    + split; [discriminate|]. intros HF. inversion HF; congruence.
    + rewrite IH. split; [intros HF; constructor; assumption|].
      intros HF. now inversion HF.
Qed.

Lemma filter_first {A : Type} (f : A -> bool) (pre post : list A) (x : A) :
  Forall (fun y => f y = false) pre -> f x = true ->
  List.filter f (pre ++ x :: post) = x :: List.filter f post.
Proof.
  intros Hpre Hx. rewrite List.filter_app.
  rewrite (proj2 (filter_nil_Forall f pre) Hpre). simpl. now rewrite Hx.
Qed.

(** X1. [detectScops] sets up one model per loop the detector accepts, in
    loop order and none for a rejected loop; each model holds exactly two
    blocks, the loop's header and then its body, no statement and no
    schedule.  It sets up no model exactly when every loop is rejected. *)
Theorem detectScops_one_model_per_accepted_loop (isScop : Loop -> bool)
    (Loops : list Loop) :
  Worker.detectScops isScop Loops =
    map (fun L => Worker.mk_scop [getHeader L; getLoopBody L] [] None)
        (List.filter isScop Loops) /\
  (length (Worker.detectScops isScop Loops) <= length Loops)%nat /\
  (Worker.detectScops isScop Loops = [] <->
   Forall (fun L => isScop L = false) Loops).
Proof.
  rewrite detectScops_filter. split; [reflexivity|]. split.
  - rewrite length_map. apply List.filter_length_le.
  - rewrite <- filter_nil_Forall.
    destruct (List.filter isScop Loops); simpl; split; congruence.
Qed.

Lemma Scop_eq (S1 S2 : Worker.Scop) :
  Worker.getBasicBlocks S1 = Worker.getBasicBlocks S2 ->
  Worker.getStmts S1 = Worker.getStmts S2 ->
  Worker.getSchedule S1 = Worker.getSchedule S2 ->
  S1 = S2.
Proof. destruct S1, S2; simpl; intros -> -> ->; reflexivity. Qed.

Section MoreBuilderFacts.
Context {R : Worker.Readers}.
Import Worker.

(** X2. [buildScop] returns the model it was given exactly when none of
    the model's blocks holds a store; empty blocks and blocks of loads
    alone add nothing.  In general the number of statements grows by the
    number of stores. *)
Theorem buildScop_adds_nothing_without_stores (S : Worker.Scop) :
  (Worker.buildScop S = S <->
   Forall (fun Inst => isa_StoreInst Inst = false)
          (concat (Worker.getBasicBlocks S))) /\
  length (Worker.getStmts (Worker.buildScop S)) =
    (length (Worker.getStmts S)
     + length (List.filter isa_StoreInst (concat (Worker.getBasicBlocks S))))%nat.
Proof.
  destruct (buildScop_fields S) as (Hs & Hb & Hc). split.
  - rewrite <- filter_nil_Forall. split.
    + intros Heq. rewrite Heq in Hs.
      rewrite <- (app_nil_r (Worker.getStmts S)) in Hs at 1.
      apply app_inv_head in Hs.
      destruct (List.filter isa_StoreInst _); [reflexivity|discriminate].
    + intros Hnil. apply Scop_eq; try assumption.
      rewrite Hs, Hnil. simpl. apply app_nil_r.
  - rewrite Hs, length_app, length_map. reflexivity.
Qed.

(** X3. [buildScop] does not recognise statements it has already built:
    run on its own output it lifts every store a second time, so each new
    statement appears twice. *)
Theorem buildScop_twice_duplicates (S : Worker.Scop) :
  let added :=
    map Worker.storeStmt
        (List.filter isa_StoreInst (concat (Worker.getBasicBlocks S))) in
  Worker.getStmts (Worker.buildScop (Worker.buildScop S)) =
    Worker.getStmts S ++ added ++ added.
Proof.
  intros added.
  destruct (buildScop_fields (Worker.buildScop S)) as (Hs2 & _ & _).
  destruct (buildScop_fields S) as (Hs & Hb & _).
  rewrite Hs2, Hb, Hs. fold added. now rewrite <- app_assoc.
Qed.

Lemma storeStmt_ids (l : list Instruction) :
  map stmt_id (map Worker.storeStmt l) =
  map (isl_id_alloc "Stmt") (map inst_addr l).
Proof. rewrite !map_map. reflexivity. Qed.

Lemma NoDup_map_injective {A B : Type} (f : A -> B) (l : list A) :
  (forall x y, f x = f y -> x = y) ->
  List.NoDup (map f l) <-> List.NoDup l.
Proof.
  intros Hinj. split; [apply List.NoDup_map_inv|].
  induction 1 as [|x l Hx Hl IH]; simpl; constructor; [|assumption].
  intros Hin. apply in_map_iff in Hin as (y & Hy & Hin).
  apply Hinj in Hy. now subst.
Qed.

(** X4. The statements [buildScop] adds are all named "Stmt" and are told
    apart by the address of their store alone: their identifiers are
    pairwise distinct exactly when the stores of the blocks have pairwise
    distinct addresses (a block listed twice gives two statements with the
    same identifier). *)
Theorem buildScop_ids_follow_store_addresses (S : Worker.Scop) :
  let stores := List.filter isa_StoreInst (concat (Worker.getBasicBlocks S)) in
  let added :=
    skipn (length (Worker.getStmts S)) (Worker.getStmts (Worker.buildScop S)) in
  map stmt_id added = map (isl_id_alloc "Stmt") (map inst_addr stores) /\
  (List.NoDup (map stmt_id added) <-> List.NoDup (map inst_addr stores)).
Proof.
  intros stores added.
  assert (Hadded : added = map Worker.storeStmt stores).
  { unfold added. destruct (buildScop_fields S) as (Hs & _ & _).
    rewrite Hs, skipn_app, Nat.sub_diag, skipn_all. reflexivity. }
  rewrite Hadded, storeStmt_ids. split; [reflexivity|].
  apply NoDup_map_injective. intros x y [= Hxy]. exact Hxy.
Qed.

(** X5. [buildScop] changes nothing but the statement list, and that list
    it only extends: blocks and schedule are as before and the statements
    the model already had stay in place, unchanged. *)
Theorem buildScop_only_extends_statements (S : Worker.Scop) :
  Worker.getBasicBlocks (Worker.buildScop S) = Worker.getBasicBlocks S /\
  Worker.getSchedule (Worker.buildScop S) = Worker.getSchedule S /\
  firstn (length (Worker.getStmts S)) (Worker.getStmts (Worker.buildScop S))
    = Worker.getStmts S /\
  forall p st, nth_error (Worker.getStmts S) p = Some st ->
               nth_error (Worker.getStmts (Worker.buildScop S)) p = Some st.
Proof.
  destruct (buildScop_fields S) as (Hs & Hb & Hc).
  split; [exact Hb|]. split; [exact Hc|]. rewrite Hs. split.
  - rewrite firstn_app, Nat.sub_diag, firstn_all. simpl. apply app_nil_r.
  - intros p st Hp. rewrite nth_error_app1; [exact Hp|].
    apply nth_error_Some. congruence.
Qed.

End MoreBuilderFacts.

Section MoreOptimizerFacts.
Context {X : Worker.Externals}.

(** X6. [optimizeSchedule] checks the tiled candidate only; the schedule
    it falls back to is taken unchecked.  So the schedule it ends with
    passes the dependence check exactly when the tiled or the initial
    schedule does, and fails it when both fail. *)
Theorem fallback_is_not_revalidated (deps : isl_union_map) (S : Worker.Scop) :
  let Current := Worker.buildInitialSchedule S in
  let Tiled := Worker.isl_schedule_node_band_tile Current [32; 32] in
  Worker.isl_schedule_fulfills_dependences (Worker.chooseSchedule deps S) deps
  = Worker.isl_schedule_fulfills_dependences Tiled deps
    || Worker.isl_schedule_fulfills_dependences Current deps.
Proof.
  intros Current Tiled.
  destruct (chooseSchedule_cases deps S) as [[Hf Hc]|[Hf Hc]];
    fold Current Tiled in Hf, Hc; rewrite Hc, Hf; reflexivity.
Qed.

End MoreOptimizerFacts.

(** ** Code generation *)

Lemma rematerialize_all (stmts : list ScopStmt) (IR : list Codegen.Emitted) :
  fold_left (fun IR Stmt => IR ++ [Codegen.rematerializeStatement Stmt]) stmts IR
  = IR ++ map Codegen.rematerializeStatement stmts.
Proof.
  revert IR; induction stmts as [|st stmts IH]; intros IR; simpl.
  - now rewrite app_nil_r.
  - rewrite IH, <- app_assoc. reflexivity.
Qed.

Lemma visitNode_actions (IR : list Codegen.Emitted) (Node : Codegen.isl_ast_node) :
  Codegen.visitNode IR Node = IR ++ Codegen.nodeActions Node.
Proof.
  unfold Codegen.visitNode, Codegen.nodeActions.
  destruct (Codegen.isLoop Node); [reflexivity|].
  destruct (Codegen.isBlock Node); [apply rematerialize_all|].
  now rewrite app_nil_r.
Qed.

Lemma visit_children (nodes : list Codegen.isl_ast_node)
    (IR : list Codegen.Emitted) :
  fold_left Codegen.visitNode nodes IR = IR ++ flat_map Codegen.nodeActions nodes.
Proof.
  revert IR; induction nodes as [|n nodes IH]; intros IR; simpl.
  - now rewrite app_nil_r.
  - rewrite IH, visitNode_actions, <- app_assoc. reflexivity.
Qed.

Section GenerateFacts.
Context {G : Codegen.Externals}.

(** X8. [generateCode] looks at the direct children of the AST only, in
    order.  It creates a loop for exactly the children that are loops, and
    rematerialises exactly the statements of the children that are blocks
    and not loops; a child that is neither, the statements of a loop node
    and everything below the children are passed over. *)
Theorem generateCode_visits_direct_children (S : Worker.Scop) :
  let AST :=
    Codegen.isl_ast_build_node_from_schedule
      (Codegen.isl_ast_build_from_schedule (Worker.getSchedule S))
      (Worker.getSchedule S) in
  Codegen.generateCode S = flat_map Codegen.nodeActions (Codegen.getChildren AST) /\
  (forall n, In (Codegen.createLoopFromNode n) (Codegen.generateCode S) <->
             In n (Codegen.getChildren AST) /\ Codegen.isLoop n = true) /\
  (forall st, In (Codegen.rematerializeStatement st) (Codegen.generateCode S) <->
              exists n, In n (Codegen.getChildren AST) /\
                        Codegen.isLoop n = false /\ Codegen.isBlock n = true /\
                        In st (Codegen.getStatements n)).
Proof.
  intros AST.
  assert (Heq : Codegen.generateCode S
                = flat_map Codegen.nodeActions (Codegen.getChildren AST)).
  { unfold Codegen.generateCode. fold AST. now rewrite visit_children. }
  rewrite Heq. split; [reflexivity|]. split.
  - intros n. rewrite in_flat_map. split.
    + intros (m & Hm & Hin). unfold Codegen.nodeActions in Hin.
      destruct (Codegen.isLoop m) eqn:El.
      * destruct Hin as [[= <-]|[]]. auto.
      * destruct (Codegen.isBlock m); [|contradiction].
        apply in_map_iff in Hin as (st & Hst & _). discriminate.
    + intros (Hn & Hl). exists n. split; [assumption|].
      unfold Codegen.nodeActions. rewrite Hl. now left.
  - intros st. rewrite in_flat_map. split.
    + intros (m & Hm & Hin). unfold Codegen.nodeActions in Hin.
      destruct (Codegen.isLoop m) eqn:El.
      * destruct Hin as [Hin|[]]. discriminate.
      * destruct (Codegen.isBlock m) eqn:Eb; [|contradiction].
        apply in_map_iff in Hin as (st' & [= <-] & Hin).
        exists m. auto.
    + intros (n & Hn & Hl & Hb & Hin). exists n. split; [assumption|].
      unfold Codegen.nodeActions. rewrite Hl, Hb. now apply in_map.
Qed.

End GenerateFacts.

(** * Further properties of worker2.cpp *)
Section MorePassFacts.
Context {H : Worker2.Helpers}.
Import Worker2.

Lemma BuildScopPass_on_result (F : Function) (R : ScopDetectionResult) :
  ScopDetectionPass_run F = Some R ->
  BuildScopPass_run F =
    (PreservedAnalyses_none,
     setMetadata "polly.scop"
       (getAsMDNode (fold_left (collectLoop (getIslCtx Scop_new)) (getLoops R) Scop_new))
       F).
Proof. intros HR. unfold BuildScopPass_run. now rewrite HR. Qed.

Lemma detection_Some (F : Function) (R : ScopDetectionResult) :
  ScopDetectionPass_run F = Some R ->
  exists pre L post,
    fn_loops F = pre ++ L :: post /\
    Forall (fun L' => isAffineLoop L' = false) pre /\
    isAffineLoop L = true /\ R = mk_result [L].
Proof.
  unfold ScopDetectionPass_run.
  destruct (isEligibleForScop F); simpl; [|discriminate].
  apply firstAffineLoop_Some.
Qed.

(** X9. Whenever [BuildScopPass::run] stores a model, the model describes
    one loop only, the first affine loop of the function: it has exactly
    one domain, the one extracted for that loop, and one access per load or
    store of that loop's blocks, in block and instruction order, a store
    as a write and a load as a read.  Further affine loops of the function
    contribute nothing. *)
Theorem BuildScopPass_models_one_loop (F F' : Function) :
  BuildScopPass_run F = (PreservedAnalyses_none, F') ->
  exists pre L post S,
    fn_loops F = pre ++ L :: post /\
    Forall (fun L' => isAffineLoop L' = false) pre /\
    isAffineLoop L = true /\
    getScopFromMetadata F' = Some S /\
    getDomain S = [extractLoopDomain L (getIslCtx Scop_new)] /\
    map getAccessRelation (getAccesses S) =
      map (fun I => buildAccessMap I (getIslCtx Scop_new))
          (List.filter isMemoryInst (concat (getBlocks L))) /\
    map getType (getAccesses S) =
      map (fun I => if isa_StoreInst I then MemoryAccess_WRITE
                    else MemoryAccess_READ)
          (List.filter isMemoryInst (concat (getBlocks L))).
Proof.
  intros Hrun.
  destruct (ScopDetectionPass_run F) as [R|] eqn:HR.
  - rewrite (BuildScopPass_on_result F R HR) in Hrun. injection Hrun as <-.
    destruct (detection_Some F R HR) as (pre & L & post & Hl & Hpre & HL & ->).
    destruct (collectLoops_spec (getIslCtx Scop_new) [L] Scop_new) as (Hd & Ha).
    simpl in Hd, Ha. rewrite app_nil_r in Ha.
    eexists pre, L, post, _. split; [exact Hl|]. split; [exact Hpre|].
    split; [exact HL|]. split; [apply getScop_setMetadata|].
    simpl. split; [exact Hd|]. rewrite Ha, !map_map. split; reflexivity.
  - unfold BuildScopPass_run in Hrun. rewrite HR in Hrun. discriminate.
Qed.

(** X10. [BuildScopPass::run] and [OptimizeSchedulePass::run] write to the
    "polly.scop" entry of the function's metadata and to nothing else:
    body, loops and every other metadata entry are as before. *)
Theorem passes_write_only_the_scop_entry (F : Function) (key : string) :
  key <> "polly.scop"%string ->
  (fn_body (snd (BuildScopPass_run F)) = fn_body F /\
   fn_loops (snd (BuildScopPass_run F)) = fn_loops F /\
   fn_metadata (snd (BuildScopPass_run F)) !! key = fn_metadata F !! key) /\
  (fn_body (snd (OptimizeSchedulePass_run F)) = fn_body F /\
   fn_loops (snd (OptimizeSchedulePass_run F)) = fn_loops F /\
   fn_metadata (snd (OptimizeSchedulePass_run F)) !! key = fn_metadata F !! key).
Proof.
  intros Hkey. split.
  - unfold BuildScopPass_run. destruct (ScopDetectionPass_run F); simpl; auto.
    repeat split. now apply lookup_insert_ne.
  - unfold OptimizeSchedulePass_run. destruct (getScopFromMetadata F); simpl; auto.
    repeat split. now apply lookup_insert_ne.
Qed.

Lemma setMetadata_twice (key : string) (m1 m2 : MDNode) (F : Function) :
  setMetadata key m2 (setMetadata key m1 F) = setMetadata key m2 F.
Proof. unfold setMetadata. simpl. f_equal. apply insert_insert_eq. Qed.

(** X11. [BuildScopPass::run] replaces the stored model, it does not add
    to it: provided detection gives the same result on the function it has
    just annotated, running the pass again returns what the first run
    returned. *)
Theorem BuildScopPass_rebuild_replaces (F : Function) :
  ScopDetectionPass_run (snd (BuildScopPass_run F)) = ScopDetectionPass_run F ->
  BuildScopPass_run (snd (BuildScopPass_run F)) = BuildScopPass_run F.
Proof.
  intros Hsame.
  destruct (ScopDetectionPass_run F) as [R|] eqn:HR.
  - rewrite (BuildScopPass_on_result _ R Hsame).
    rewrite (BuildScopPass_on_result F R HR). simpl.
    now rewrite setMetadata_twice.
  - unfold BuildScopPass_run at 2 3. rewrite HR. simpl.
    unfold BuildScopPass_run. now rewrite HR.
Qed.

(** X12. [OptimizeSchedulePass::run] changes two things in the stored
    model, the schedule and the scheduling algorithm of the context:
    domain, accesses and dependences stay, the algorithm is the isl one
    whatever it was, and the new schedule is what the scheduler returns
    for the domain and the dependences under that algorithm, with no
    context constraints; the schedule the model had plays no part. *)
Theorem OptimizeSchedulePass_changes_schedule_only (F : Function) (scop : Scop) :
  getScopFromMetadata F = Some scop ->
  exists scop',
    getScopFromMetadata (snd (OptimizeSchedulePass_run F)) = Some scop' /\
    getDomain scop' = getDomain scop /\
    getAccesses scop' = getAccesses scop /\
    getDependences scop' = getDependences scop /\
    getIslCtx scop' = mk_ctx ISL_SCHEDULE_ALGORITHM_ISL /\
    getSchedule scop' =
      isl_schedule_from_domain_and_dependences
        (mk_ctx ISL_SCHEDULE_ALGORITHM_ISL) (getDomain scop)
        (getDependences scop) Isl.isl_union_map_empty.
Proof.
  intros HF. exists (optimizeScop scop).
  split; [now apply OptimizeSchedulePass_scop|]. repeat split.
Qed.

Lemma setMetadata_stored (F : Function) (scop : Scop) :
  getScopFromMetadata F = Some scop ->
  setMetadata "polly.scop" (getAsMDNode scop) F = F.
Proof.
  unfold getScopFromMetadata, setMetadata. intros HF.
  destruct (fn_metadata F !! "polly.scop"%string) as [md|] eqn:Hmd;
    [|discriminate].
  injection HF as <-. destruct md as [s0]. simpl.
  rewrite (insert_id _ _ _ Hmd). now destruct F.
Qed.

(** X13. Each pass reports all analyses preserved in exactly one case:
    [BuildScopPass::run] when detection has no result, and
    [OptimizeSchedulePass::run] and [CodeGenPass::run] when the function
    carries no model.  Otherwise they report none preserved, whatever the
    pass changes: when the scheduler returns the schedule the model
    already has under the isl algorithm, [OptimizeSchedulePass::run]
    returns the function exactly as it was and still reports none. *)
Theorem all_preserved_exactly_without_scop (F : Function) :
  (fst (BuildScopPass_run F) = PreservedAnalyses_all <->
   ScopDetectionPass_run F = None) /\
  (fst (OptimizeSchedulePass_run F) = PreservedAnalyses_all <->
   getScopFromMetadata F = None) /\
  (fst (CodeGenPass_run F) = PreservedAnalyses_all <->
   getScopFromMetadata F = None) /\
  (forall scop,
     getScopFromMetadata F = Some scop -> optimizeScop scop = scop ->
     OptimizeSchedulePass_run F = (PreservedAnalyses_none, F)).
Proof.
  split; [|split; [|split]].
  - unfold BuildScopPass_run.
    destruct (ScopDetectionPass_run F); simpl; split; congruence.
  - unfold OptimizeSchedulePass_run.
    destruct (getScopFromMetadata F); simpl; split; congruence.
  - unfold CodeGenPass_run.
    destruct (getScopFromMetadata F); simpl; split; congruence.
  - intros scop HF Hfix. unfold OptimizeSchedulePass_run.
    rewrite HF, Hfix. now rewrite (setMetadata_stored F scop HF).
Qed.

(** X14. [DependenceAnalysisPass::run] returns an empty relation for a
    function without a model; for a function with one, an edge is in the
    result exactly when it is in the RAW, the WAW or the WAR relation of
    the model. *)
Theorem DependenceAnalysisPass_unites_three_kinds (F : Function) :
  (getScopFromMetadata F = None ->
   depinfo_map (DependenceAnalysisPass_run F) = []) /\
  (forall scop e,
     getScopFromMetadata F = Some scop ->
     (In e (depinfo_map (DependenceAnalysisPass_run F)) <->
      In e (isl_dependence_from_scop (getIslScop scop) ISL_DEPENDENCE_RAW) \/
      In e (isl_dependence_from_scop (getIslScop scop) ISL_DEPENDENCE_WAW) \/
      In e (isl_dependence_from_scop (getIslScop scop) ISL_DEPENDENCE_WAR))).
Proof.
  split.
  - intros HF. unfold DependenceAnalysisPass_run. now rewrite HF.
  - intros scop e HF.
    rewrite (DependenceAnalysisPass_collects F scop HF), !in_app_iff. tauto.
Qed.

(** X20. [CodeGenPass::run] reads two things of the stored model, its
    schedule and its context: two functions whose models agree on these
    get their code generated from one and the same AST, whatever domains,
    accesses and dependences the models hold. *)
Theorem CodeGenPass_reads_schedule_and_context (F1 F2 : Function)
    (scop1 scop2 : Scop) :
  getScopFromMetadata F1 = Some scop1 ->
  getScopFromMetadata F2 = Some scop2 ->
  getSchedule scop1 = getSchedule scop2 ->
  getIslCtx scop1 = getIslCtx scop2 ->
  exists AST,
    CodeGenPass_run F1 = (PreservedAnalyses_none, generateLLVMFromAST AST F1) /\
    CodeGenPass_run F2 = (PreservedAnalyses_none, generateLLVMFromAST AST F2).
Proof.
  intros H1 H2 Hs Hc. eexists.
  unfold CodeGenPass_run. rewrite H1, H2, <- Hs, <- Hc. split; reflexivity.
Qed.

(** ** Registration *)

(** X15. [registerPollyPasses] keeps the callbacks a pass builder
    already has and adds one of each kind after them.  The pipeline
    callback accepts the element name "polly-scop" and no other: for that
    name it appends the four passes to those the manager holds, in the
    order model construction, dependence analysis, schedule optimisation,
    code generation; for any other name it leaves the manager as it is.
    The analysis callback registers the SCoP detection and nothing else. *)
Theorem registerPollyPasses_adds_polly_scop (PB : Registration.PassBuilder)
    (Name : string) (FPM : Registration.FunctionPassManager) (b : bool)
    (FAM : Registration.FunctionAnalysisManager) :
  Registration.pipelineParsingCallbacks (Registration.registerPollyPasses PB)
    = Registration.pipelineParsingCallbacks PB ++ [Registration.parsePipeline] /\
  Registration.analysisRegistrationCallbacks (Registration.registerPollyPasses PB)
    = Registration.analysisRegistrationCallbacks PB
      ++ [Registration.registerAnalyses] /\
  Registration.registerAnalyses FAM = FAM ++ [Registration.Analysis_ScopDetection] /\
  (fst (Registration.parsePipeline Name FPM b) = true <->
   Name = "polly-scop"%string) /\
  (Name = "polly-scop"%string ->
   snd (Registration.parsePipeline Name FPM b) =
     FPM ++ [Registration.Pass_BuildScop; Registration.Pass_DependenceAnalysis;
             Registration.Pass_OptimizeSchedule; Registration.Pass_CodeGen]) /\
  (Name <> "polly-scop"%string ->
   snd (Registration.parsePipeline Name FPM b) = FPM).
Proof.
  split; [reflexivity|]. split; [reflexivity|]. split; [reflexivity|].
  unfold Registration.parsePipeline, Registration.addPass.
  destruct (String.eqb_spec Name "polly-scop") as [->|Hne]; simpl.
  - repeat split; try congruence. intros _. now rewrite <- !app_assoc.
  - repeat split; try congruence.
Qed.

Lemma polly_scop_passes (b : bool) :
  snd (Registration.parsePipeline "polly-scop" [] b) =
  [Registration.Pass_BuildScop; Registration.Pass_DependenceAnalysis;
   Registration.Pass_OptimizeSchedule; Registration.Pass_CodeGen].
Proof. reflexivity. Qed.

(** X16. On a function that carries no model and for which detection has
    no result, the whole "polly-scop" pipeline is without effect: after
    the four passes the function is as it was. *)
Theorem polly_scop_pipeline_without_scop (F : Function) (b : bool) :
  ScopDetectionPass_run F = None ->
  getScopFromMetadata F = None ->
  Registration.runPasses (snd (Registration.parsePipeline "polly-scop" [] b)) F
  = F.
Proof.
  intros Hd Hs. rewrite polly_scop_passes.
  unfold Registration.runPasses. simpl.
  unfold BuildScopPass_run. rewrite Hd. simpl.
  unfold OptimizeSchedulePass_run. rewrite Hs. simpl.
  unfold CodeGenPass_run. now rewrite Hs.
Qed.

(** X17. A model left on the function by an earlier run outlives a failed
    detection: [BuildScopPass::run] does not remove it, and the later
    passes of the "polly-scop" pipeline reschedule it and generate code
    from it as if it had just been built. *)
Theorem polly_scop_pipeline_reuses_stale_model (F : Function) (scop : Scop)
    (b : bool) :
  ScopDetectionPass_run F = None ->
  getScopFromMetadata F = Some scop ->
  getScopFromMetadata (snd (BuildScopPass_run F)) = Some scop /\
  Registration.runPasses (snd (Registration.parsePipeline "polly-scop" [] b)) F
  = snd (CodeGenPass_run
           (setMetadata "polly.scop" (getAsMDNode (optimizeScop scop)) F)) /\
  fst (CodeGenPass_run
         (setMetadata "polly.scop" (getAsMDNode (optimizeScop scop)) F))
  = PreservedAnalyses_none.
Proof.
  intros Hd Hs.
  assert (Hb : BuildScopPass_run F = (PreservedAnalyses_all, F)).
  { unfold BuildScopPass_run. now rewrite Hd. }
  split; [now rewrite Hb|]. split.
  - rewrite polly_scop_passes. unfold Registration.runPasses. simpl.
    rewrite Hb. simpl. unfold OptimizeSchedulePass_run. now rewrite Hs.
  - unfold CodeGenPass_run. now rewrite getScop_setMetadata.
Qed.

(** X18. When detection has a result, the passes of the "polly-scop"
    pipeline hand the model on through the function's metadata: what
    [OptimizeSchedulePass::run] reschedules is the model
    [BuildScopPass::run] has just built, and code is generated from the
    rescheduled model.  A model the function carried before is
    overwritten and plays no part. *)
Theorem polly_scop_pipeline_hands_model_on (F : Function)
    (R : ScopDetectionResult) (b : bool) :
  ScopDetectionPass_run F = Some R ->
  let built :=
    fold_left (collectLoop (getIslCtx Scop_new)) (getLoops R) Scop_new in
  let F2 := setMetadata "polly.scop" (getAsMDNode (optimizeScop built)) F in
  getScopFromMetadata F2 = Some (optimizeScop built) /\
  Registration.runPasses (snd (Registration.parsePipeline "polly-scop" [] b)) F
  = snd (CodeGenPass_run F2).
Proof.
  intros HR built F2. split; [apply getScop_setMetadata|].
  rewrite polly_scop_passes. unfold Registration.runPasses. simpl.
  rewrite (BuildScopPass_on_result F R HR). simpl. fold built.
  unfold OptimizeSchedulePass_run at 1.
  rewrite getScop_setMetadata. simpl. now rewrite setMetadata_twice.
Qed.

End MorePassFacts.

(** ** [main] *)
Section MainFacts.
Context {R : Worker.Readers} {X : Worker.Externals} {G : Codegen.Externals}.

(** X19. [main] hands the pointer it gets from [getFirstScop] to
    [buildScop] unchecked: a null pointer is read through.  Otherwise
    [main] prints the RAW relation of the model [buildScop] has built and
    generates code from a model whose schedule is set: what it emits is
    what the direct children of the AST contribute, the AST being built
    from the schedule [optimizeSchedule] has chosen for that model against
    the dependences of the [DepInfo] it reads; the relation printed plays
    no part in that choice. *)
Theorem main_generates_from_the_chosen_schedule (isScop : Loop -> bool)
    (Loops : list Loop) (getFirstScop : option Worker.Scop)
    (DepInfo : DependenceInfo) :
  (Codegen.main isScop Loops getFirstScop DepInfo = Codegen.NullDereference <->
   getFirstScop = None) /\
  forall scop,
    getFirstScop = Some scop ->
    let built := Worker.buildScop scop in
    let chosen := Some (Worker.chooseSchedule (getAllDependences DepInfo) built) in
    Codegen.main isScop Loops getFirstScop DepInfo =
      Codegen.Returned
        (getRAWDependences (Worker.DependenceInfo_analyze built))
        (flat_map Codegen.nodeActions
           (Codegen.getChildren
              (Codegen.isl_ast_build_node_from_schedule
                 (Codegen.isl_ast_build_from_schedule chosen) chosen))).
Proof.
  split.
  - unfold Codegen.main. destruct getFirstScop; split; congruence.
  - intros scop -> built chosen. unfold Codegen.main.
    unfold Codegen.generateCode. rewrite visit_children. reflexivity.
Qed.

End MainFacts.

(** * The further properties at sample inputs *)

Section MoreSampleRuns.
#[local] Existing Instance Samples.sampleReaders.
#[local] Existing Instance Samples.sampleExternals.
#[local] Existing Instance Samples.sampleHelpers.
#[local] Existing Instance MoreSamples.sampleCodegen.
Import Worker2.

(** X8 on the sample AST: two loops are created, the two statements of
    the block are rematerialised, and the statement that sits in the loop
    nodes, in the node that is neither and below the children is not. *)
Lemma generateCode_visits_direct_children_witness :
  Codegen.generateCode Samples.scopA
    = [Codegen.createLoopFromNode MoreSamples.loopNode;
       Codegen.rematerializeStatement Samples.initC;
       Codegen.rematerializeStatement Samples.accumC;
       Codegen.createLoopFromNode MoreSamples.bothNode] /\
  ~ In (Codegen.rematerializeStatement Samples.prefixSum)
       (Codegen.generateCode Samples.scopA).
Proof.
  destruct (generateCode_visits_direct_children Samples.scopA)
    as (Heq & _ & Hrem).
  split; [rewrite Heq; reflexivity|].
  intros Hin. apply Hrem in Hin as (n & Hn & Hl & Hb & Hst).
  simpl in Hn.
  destruct Hn as [<-|[<-|[<-|[<-|[]]]]]; simpl in Hl, Hb, Hst;
    try discriminate.
  destruct Hst as [Hst|[Hst|[]]]; discriminate.
Defined.

(** X9 on [fnA]: the model holds the domain of [loopA] and its three
    accesses. *)
Lemma BuildScopPass_models_one_loop_witness :
  BuildScopPass_run Samples.fnA = (PreservedAnalyses_none, Samples.fnA1) /\
  exists S,
    getScopFromMetadata Samples.fnA1 = Some S /\
    length (getDomain S) = 1%nat /\
    map getType (getAccesses S)
      = [MemoryAccess_READ; MemoryAccess_WRITE; MemoryAccess_WRITE].
Proof.
  assert (Hrun : BuildScopPass_run Samples.fnA
                 = (PreservedAnalyses_none, Samples.fnA1)) by reflexivity.
  destruct (BuildScopPass_models_one_loop _ _ Hrun)
    as (pre & L & post & S & _ & _ & _ & HS & Hd & _ & _).
  split; [exact Hrun|]. exists S. split; [exact HS|].
  split; [now rewrite Hd|].
  assert (HS' : getScopFromMetadata Samples.fnA1 = Some Samples.scopA1)
    by (vm_compute; reflexivity).
  rewrite HS' in HS. injection HS as <-. reflexivity.
Defined.

(** X10 on [fnA] and a metadata key other than "polly.scop". *)
Lemma passes_write_only_the_scop_entry_witness :
  "llvm.loop"%string <> "polly.scop"%string /\
  fn_metadata (snd (BuildScopPass_run Samples.fnA)) !! "llvm.loop"%string
    = fn_metadata Samples.fnA !! "llvm.loop"%string /\
  fn_body (snd (OptimizeSchedulePass_run Samples.fnA2)) = fn_body Samples.fnA2.
Proof.
  assert (Hk : "llvm.loop"%string <> "polly.scop"%string) by discriminate.
  destruct (passes_write_only_the_scop_entry Samples.fnA _ Hk)
    as ((_ & _ & Hm) & _).
  destruct (passes_write_only_the_scop_entry Samples.fnA2 _ Hk)
    as (_ & (Hb & _ & _)).
  split; [exact Hk|]. split; [exact Hm|exact Hb].
Defined.

(** X11 on [fnA]. *)
Lemma BuildScopPass_rebuild_replaces_witness :
  ScopDetectionPass_run (snd (BuildScopPass_run Samples.fnA))
    = ScopDetectionPass_run Samples.fnA /\
  BuildScopPass_run (snd (BuildScopPass_run Samples.fnA))
    = BuildScopPass_run Samples.fnA.
Proof.
  assert (Hd : ScopDetectionPass_run (snd (BuildScopPass_run Samples.fnA))
               = ScopDetectionPass_run Samples.fnA) by reflexivity.
  split; [exact Hd|]. exact (BuildScopPass_rebuild_replaces Samples.fnA Hd).
Defined.

(** X12 on a model stored with another schedule and algorithm. *)
Lemma OptimizeSchedulePass_changes_schedule_only_witness :
  getScopFromMetadata Samples.fnA2 = Some Samples.scopA2 /\
  exists scop',
    getScopFromMetadata (snd (OptimizeSchedulePass_run Samples.fnA2)) = Some scop' /\
    getDomain scop' = getDomain Samples.scopA2 /\
    getIslCtx scop' = mk_ctx ISL_SCHEDULE_ALGORITHM_ISL.
Proof.
  assert (HF : getScopFromMetadata Samples.fnA2 = Some Samples.scopA2)
    by (vm_compute; reflexivity).
  destruct (OptimizeSchedulePass_changes_schedule_only _ _ HF)
    as (scop' & Hs & Hd & _ & _ & Hc & _).
  split; [exact HF|]. exists scop'. auto.
Defined.

(** X20 on two functions whose models differ in domain and accesses
    only. *)
Lemma CodeGenPass_reads_schedule_and_context_witness :
  getScopFromMetadata (snd (OptimizeSchedulePass_run Samples.fnA1))
    = Some (optimizeScop Samples.scopA1) /\
  getScopFromMetadata (snd (OptimizeSchedulePass_run Samples.fnA2))
    = Some (optimizeScop Samples.scopA2) /\
  getAccesses (optimizeScop Samples.scopA1)
    <> getAccesses (optimizeScop Samples.scopA2) /\
  exists AST,
    CodeGenPass_run (snd (OptimizeSchedulePass_run Samples.fnA1))
      = (PreservedAnalyses_none,
         generateLLVMFromAST AST (snd (OptimizeSchedulePass_run Samples.fnA1))) /\
    CodeGenPass_run (snd (OptimizeSchedulePass_run Samples.fnA2))
      = (PreservedAnalyses_none,
         generateLLVMFromAST AST (snd (OptimizeSchedulePass_run Samples.fnA2))).
Proof.
  assert (H1 : getScopFromMetadata (snd (OptimizeSchedulePass_run Samples.fnA1))
               = Some (optimizeScop Samples.scopA1)) by (vm_compute; reflexivity).
  assert (H2 : getScopFromMetadata (snd (OptimizeSchedulePass_run Samples.fnA2))
               = Some (optimizeScop Samples.scopA2)) by (vm_compute; reflexivity).
  assert (H3 : getSchedule (optimizeScop Samples.scopA1)
               = getSchedule (optimizeScop Samples.scopA2)) by reflexivity.
  assert (H4 : getIslCtx (optimizeScop Samples.scopA1)
               = getIslCtx (optimizeScop Samples.scopA2)) by reflexivity.
  destruct (CodeGenPass_reads_schedule_and_context _ _ _ _ H1 H2 H3 H4)
    as (AST & Hc1 & Hc2).
  split; [exact H1|]. split; [exact H2|]. split; [discriminate|].
  exists AST. split; [exact Hc1|exact Hc2].
Defined.

(** X16 on a function that is not eligible and carries no model. *)
Lemma polly_scop_pipeline_without_scop_witness :
  ScopDetectionPass_run Samples.fnEmpty = None /\
  getScopFromMetadata Samples.fnEmpty = None /\
  Registration.runPasses
    (snd (Registration.parsePipeline "polly-scop" [] true)) Samples.fnEmpty
  = Samples.fnEmpty.
Proof.
  assert (Hd : ScopDetectionPass_run Samples.fnEmpty = None) by reflexivity.
  assert (Hs : getScopFromMetadata Samples.fnEmpty = None) by reflexivity.
  split; [exact Hd|]. split; [exact Hs|].
  exact (polly_scop_pipeline_without_scop Samples.fnEmpty true Hd Hs).
Defined.

(** X17 on a function that is not eligible and carries a model. *)
Lemma polly_scop_pipeline_reuses_stale_model_witness :
  ScopDetectionPass_run MoreSamples.fnStale = None /\
  getScopFromMetadata MoreSamples.fnStale = Some Samples.scopA2 /\
  getScopFromMetadata (snd (BuildScopPass_run MoreSamples.fnStale))
    = Some Samples.scopA2 /\
  getScopFromMetadata
    (Registration.runPasses
       (snd (Registration.parsePipeline "polly-scop" [] true))
       MoreSamples.fnStale)
  = Some (optimizeScop Samples.scopA2).
Proof.
  assert (Hd : ScopDetectionPass_run MoreSamples.fnStale = None) by reflexivity.
  assert (Hs : getScopFromMetadata MoreSamples.fnStale = Some Samples.scopA2)
    by (vm_compute; reflexivity).
  destruct (polly_scop_pipeline_reuses_stale_model _ _ true Hd Hs)
    as (Hb & Hrun & _).
  split; [exact Hd|]. split; [exact Hs|]. split; [exact Hb|].
  rewrite Hrun. vm_compute. reflexivity.
Defined.

(** X18 on [fnA]. *)
Lemma polly_scop_pipeline_hands_model_on_witness :
  ScopDetectionPass_run Samples.fnA = Some (mk_result [Samples.loopA]) /\
  getScopFromMetadata
    (Registration.runPasses
       (snd (Registration.parsePipeline "polly-scop" [] true)) Samples.fnA)
  = Some (optimizeScop Samples.scopA1).
Proof.
  assert (Hd : ScopDetectionPass_run Samples.fnA
               = Some (mk_result [Samples.loopA])) by reflexivity.
  destruct (polly_scop_pipeline_hands_model_on Samples.fnA _ true Hd)
    as (_ & Hrun).
  split; [exact Hd|]. rewrite Hrun. vm_compute. reflexivity.
Defined.

(** X19 on the model of [loopA], an unfilled [DepInfo] and the sample
    AST. *)
Lemma main_generates_from_the_chosen_schedule_witness :
  Codegen.main MoreSamples.headerScop
    [Samples.loopB; Samples.loopA; Samples.loopC] None Samples.unanalysed
  = Codegen.NullDereference /\
  exists printed,
    Codegen.main MoreSamples.headerScop
      [Samples.loopB; Samples.loopA; Samples.loopC]
      (Some Samples.scopA) Samples.unanalysed
    = Codegen.Returned printed
        [Codegen.createLoopFromNode MoreSamples.loopNode;
         Codegen.rematerializeStatement Samples.initC;
         Codegen.rematerializeStatement Samples.accumC;
         Codegen.createLoopFromNode MoreSamples.bothNode].
Proof.
  destruct (main_generates_from_the_chosen_schedule MoreSamples.headerScop
              [Samples.loopB; Samples.loopA; Samples.loopC] None
              Samples.unanalysed) as (Hnull & _).
  destruct (main_generates_from_the_chosen_schedule MoreSamples.headerScop
              [Samples.loopB; Samples.loopA; Samples.loopC] (Some Samples.scopA)
              Samples.unanalysed) as (_ & Hrun).
  split; [exact (proj2 Hnull eq_refl)|].
  eexists. rewrite (Hrun _ eq_refl). reflexivity.
Defined.

End MoreSampleRuns.
